(** * solar-exodus: the tripled-rockies map generator

    A shallow embedding of [Map Testing/solar_system_tripled_rockies.py].

    The script is one module-level computation.  Its integer and
    double-precision arithmetic is embedded with [Z] and with Rocq's
    primitive binary64 floats, so that the constant tables of the script can
    be evaluated; exceptions are values of an error monad; the canvas is a
    two-dimensional array given by its pixel function; the pseudo-random
    generator is an arbitrary stream of draws; the coordinate mathematics of
    the texture projector, which goes through [math.asin] and [math.atan2],
    is embedded over the real numbers. *)

From Stdlib Require Import ZArith List String Bool Lia Floats Reals Lra.
From Stdlib Require Import Sorting.Sorted Sorting.Permutation.
Import ListNotations.

Set Warnings "-inexact-float".

Open Scope string_scope.
Open Scope Z_scope.

(** ** Exceptions and the error monad *)

Inductive pyexn : Type :=
| NameError (name : string)
| KeyError (key : string)
| ValueError
| IndexError
| OverflowError
| ZeroDivisionError.

Inductive result (A : Type) : Type :=
| Ok (a : A)
| Raise (e : pyexn).

Arguments Ok {A} a.
Arguments Raise {A} e.

Definition bind {A B : Type} (m : result A) (k : A -> result B) : result B :=
  match m with
  | Ok a => k a
  | Raise e => Raise e
  end.

Notation "x <- m ;; k" := (bind m (fun x => k))
  (at level 61, m at next level, right associativity).
Notation "' pat <- m ;; k" := (bind m (fun x => match x with pat => k end))
  (at level 61, pat pattern, m at next level, right associativity).

(** Monadic map and left fold over a list: [for] loops and comprehensions. *)
Fixpoint mapM {A B : Type} (f : A -> result B) (l : list A) : result (list B) :=
  match l with
  | [] => Ok []
  | a :: l' => b <- f a ;; bs <- mapM f l' ;; Ok (b :: bs)
  end.

Fixpoint foldM {A S : Type} (f : S -> A -> result S) (s : S) (l : list A) : result S :=
  match l with
  | [] => Ok s
  | a :: l' => s' <- f s a ;; foldM f s' l'
  end.

(** ** Dictionaries with string keys, in insertion order *)

Definition dict (A : Type) : Type := list (string * A).

Fixpoint getitem {A : Type} (d : dict A) (k : string) : result A :=
  match d with
  | [] => Raise (KeyError k)
  | (k', v) :: d' => if String.eqb k k' then Ok v else getitem d' k
  end.

Fixpoint setitem {A : Type} (d : dict A) (k : string) (v : A) : dict A :=
  match d with
  | [] => [(k, v)]
  | (k', v') :: d' =>
      if String.eqb k k' then (k', v) :: d' else (k', v') :: setitem d' k v
  end.

Definition keys {A : Type} (d : dict A) : list string := map fst d.

(** [{p: f(p) for p in d}] *)
Definition dict_comp {A B : Type} (d : dict A) (f : string -> result B) : result (dict B) :=
  mapM (fun p => v <- f p ;; Ok (p, v)) (keys d).

Definition mem (k : string) (s : list string) : bool :=
  existsb (String.eqb k) s.

(** ** Python numbers *)

Module PyNum.

(** [float(z)] for an integer: the nearest binary64, ties to even. *)
Definition float_of_Z (z : Z) : float :=
  SF2Prim (binary_normalize prec emax z 0 false).

(** [int(x)] for a float: truncation towards zero. *)
Definition int_of_float (x : float) : result Z :=
  match Prim2SF x with
  | S754_zero _ => Ok 0
  | S754_finite s m e =>
      let q := if 0 <=? e then Zpos m * 2 ^ e else Zpos m / 2 ^ (- e) in
      Ok (if s then - q else q)
  | S754_infinity _ => Raise OverflowError
  | S754_nan => Raise ValueError
  end.

(** [round(x)] for a float, one argument: the nearest integer, ties to even. *)
Definition round_half_even (m d : Z) : Z :=
  let q := m / d in
  let r := m mod d in
  if 2 * r <? d then q
  else if d <? 2 * r then q + 1
  else if Z.even q then q else q + 1.

Definition round (x : float) : result Z :=
  match Prim2SF x with
  | S754_zero _ => Ok 0
  | S754_finite s m e =>
      let q := if 0 <=? e then Zpos m * 2 ^ e
               else round_half_even (Zpos m) (2 ^ (- e)) in
      Ok (if s then - q else q)
  | S754_infinity _ => Raise OverflowError
  | S754_nan => Raise ValueError
  end.

(** [int(round(x))] *)
Definition int_round (x : float) : result Z := round x.

(** [a / b] on floats. *)
Definition truediv (a b : float) : result float :=
  if PrimFloat.eqb b 0%float then Raise ZeroDivisionError
  else Ok (PrimFloat.div a b).

(** [min(a, b)] on floats: the first argument unless the second is smaller. *)
Definition fmin (a b : float) : float :=
  if PrimFloat.ltb b a then b else a.

End PyNum.

Import PyNum.

(** ** Parameters of the script *)

Definition WIDTH : Z := 16384.
Definition HEIGHT : Z := 8192.
Definition GRAY_PLANET : Z := 45000.
Definition GRAY_ORBIT_RING : Z := 30000.
Definition GRAY_SAT_RING : Z := 60000.
Definition GRAY_ASTEROID : Z := 35000.

Definition LEFT_MARGIN : Z := 100.
Definition RIGHT_MARGIN : Z := 100.
Definition EARTH_PX : Z := 150.
Definition MIN_GAP_MARS_JUP : Z := 1100.

Definition LOW_OFF : Z := 24.
Definition LOW_THICK : Z := 6.
Definition HIGH_GAP : Z := 30.
Definition HIGH_THICK : Z := 6.
Definition MOON_RING_OFF : Z := 6.
Definition MOON_RING_THICK : Z := 4.

Definition SHIFT_MERCURY : Z := 250.
Definition SHIFT_JUPITER : Z := 1500.
Definition BELT_LEFT_SHIFT : Z := 300.
Definition BELT_RIGHT_SHIFT : Z := 800.

Definition PLANET_KM : dict Z :=
  [("Mercury", 2440); ("Venus", 6052); ("Earth", 6371); ("Mars", 3390);
   ("Jupiter", 69911); ("Saturn", 58232); ("Uranus", 25362); ("Neptune", 24622);
   ("Pluto", 1188)].
Definition GAS : list string := ["Jupiter"; "Saturn"; "Uranus"; "Neptune"].
Definition SATURN : string := "Saturn".
Definition ROCKY : list string := ["Mercury"; "Venus"; "Earth"; "Mars"; "Pluto"].

(** ** Base scale *)

Definition scale : result float :=
  km <- getitem PLANET_KM "Earth" ;;
  truediv (float_of_Z EARTH_PX) (float_of_Z km).

Definition raw_px : result (dict float) :=
  s <- scale ;;
  dict_comp PLANET_KM (fun p =>
    km <- getitem PLANET_KM p ;; Ok (PrimFloat.mul (float_of_Z km) s)).

Definition shrink : result float :=
  raw <- raw_px ;;
  rj <- getitem raw "Jupiter" ;;
  q <- truediv (float_of_Z (3 * EARTH_PX)) rj ;;
  Ok (fmin 1%float q).

Definition radius_base : result (dict Z) :=
  raw <- raw_px ;;
  sh <- shrink ;;
  d <- dict_comp PLANET_KM (fun p =>
         x <- getitem raw p ;;
         int_round (PrimFloat.mul x (if mem p GAS then sh else float_of_Z 1))) ;;
  Ok (setitem d "Earth" EARTH_PX).

Definition low_outer_from_r (r : Z) : Z := r + LOW_OFF + LOW_THICK.

(** Ring extents from a table of radii; the script computes them twice, from
    [radius_base] and from [radius_px].  The value [None] is Saturn's. *)
Definition ring_low_outer_of (radius : dict Z) : result (dict Z) :=
  dict_comp PLANET_KM (fun p =>
    r <- getitem radius p ;;
    if String.eqb p SATURN
    then int_round (PrimFloat.mul (float_of_Z r) 1.5%float)
    else Ok (low_outer_from_r r)).

Definition ring_high_inner_of (low_outer : dict Z) : result (dict (option Z)) :=
  dict_comp PLANET_KM (fun p =>
    if negb (String.eqb p SATURN)
    then lo <- getitem low_outer p ;; Ok (Some (lo + HIGH_GAP))
    else Ok None).

Definition ring_high_outer_of (high_inner : dict (option Z)) : result (dict (option Z)) :=
  dict_comp PLANET_KM (fun p =>
    if negb (String.eqb p SATURN)
    then hi <- getitem high_inner p ;;
         match hi with
         | Some v => Ok (Some (v + HIGH_THICK))
         | None => Raise ValueError
         end
    else Ok None).

Definition ring_low_outer_base : result (dict Z) :=
  rb <- radius_base ;; ring_low_outer_of rb.
Definition ring_high_inner_base : result (dict (option Z)) :=
  lo <- ring_low_outer_base ;; ring_high_inner_of lo.
Definition ring_high_outer_base : result (dict (option Z)) :=
  hi <- ring_high_inner_base ;; ring_high_outer_of hi.

(** An entry that must be an integer: arithmetic on [None] raises. *)
Definition the_int (v : option Z) : result Z :=
  match v with
  | Some z => Ok z
  | None => Raise ValueError
  end.

(** ** Updated radii: rocky planets tripled *)

Definition radius_px : result (dict Z) :=
  rb <- radius_base ;;
  foldM (fun d p => r <- getitem rb p ;; Ok (setitem d p (r * 3))) rb ROCKY.

Definition ring_low_outer : result (dict Z) :=
  rp <- radius_px ;; ring_low_outer_of rp.
Definition ring_high_inner : result (dict (option Z)) :=
  lo <- ring_low_outer ;; ring_high_inner_of lo.
Definition ring_high_outer : result (dict (option Z)) :=
  hi <- ring_high_inner ;; ring_high_outer_of hi.

Lemma radius_base_eval :
  radius_base =
  Ok [("Mercury", 57); ("Venus", 142); ("Earth", 150); ("Mars", 80);
      ("Jupiter", 450); ("Saturn", 375); ("Uranus", 163); ("Neptune", 158);
      ("Pluto", 28)].
Proof. vm_compute. reflexivity. Qed.

(** ** Positions of the original layout *)

(** [a / b] on integers (true division); both are far below 2^53 here, so
    the quotient of the converted operands is the correctly rounded one. *)
Definition truediv_int (a b : Z) : result float :=
  if b =? 0 then Raise ZeroDivisionError
  else Ok (PrimFloat.div (float_of_Z a) (float_of_Z b)).

Definition INNER : list string := ["Mercury"; "Venus"; "Earth"; "Mars"].

(** [enumerate(l, start)] *)
Fixpoint enumerate {A : Type} (start : Z) (l : list A) : list (Z * A) :=
  match l with
  | [] => []
  | a :: l' => (start, a) :: enumerate (start + 1) l'
  end.

Definition centre_x_base : result (dict Z) :=
  rb <- radius_base ;;
  lo_b <- ring_low_outer_base ;;
  ho_b <- ring_high_outer_base ;;
  r_mercury <- getitem rb "Mercury" ;;
  let cx := setitem [] "Mercury" (LEFT_MARGIN + r_mercury) in
  inner_right <- int_of_float (PrimFloat.mul (float_of_Z WIDTH) 0.30%float) ;;
  cx_mercury <- getitem cx "Mercury" ;;
  r_mars <- getitem rb "Mars" ;;
  inner_spacing <- truediv_int (inner_right - cx_mercury - r_mars)
                               (Z.of_nat (List.length INNER) - 1) ;;
  cx <- foldM (fun cx '(i, p) =>
                 c0 <- getitem cx "Mercury" ;;
                 v <- int_round (PrimFloat.add (float_of_Z c0)
                                   (PrimFloat.mul (float_of_Z i) inner_spacing)) ;;
                 Ok (setitem cx p v))
              cx (enumerate 1 (tl INNER)) ;;
  cx_mars <- getitem cx "Mars" ;;
  ho_mars <- (v <- getitem ho_b "Mars" ;; the_int v) ;;
  lo_jup <- getitem lo_b "Jupiter" ;;
  let cx := setitem cx "Jupiter"
              ((cx_mars + ho_mars + MIN_GAP_MARS_JUP + lo_jup) + 600) in
  r_pluto <- getitem rb "Pluto" ;;
  let cx := setitem cx "Pluto" (WIDTH - RIGHT_MARGIN - r_pluto) in
  cx_pluto <- getitem cx "Pluto" ;;
  cx_jup <- getitem cx "Jupiter" ;;
  let dist_jp_pl := cx_pluto - cx_jup in
  v <- int_round (PrimFloat.add (float_of_Z cx_jup)
                    (PrimFloat.mul 0.88%float (float_of_Z dist_jp_pl))) ;;
  let cx := setitem cx "Neptune" v in
  cx_nep <- getitem cx "Neptune" ;;
  let cx := setitem cx "Saturn" ((cx_jup + cx_nep) / 2 - 100) in
  cx_sat <- getitem cx "Saturn" ;;
  Ok (setitem cx "Uranus" ((cx_sat + cx_nep) / 2)).

Definition centre_y : result (dict Z) :=
  dict_comp PLANET_KM (fun _ => Ok (HEIGHT / 2)).

(** The two manual moves: Mercury and Jupiter only. *)
Definition centre_x : result (dict Z) :=
  cb <- centre_x_base ;;
  c <- getitem cb "Mercury" ;;
  let cx := setitem cb "Mercury" (c + SHIFT_MERCURY) in
  c <- getitem cx "Jupiter" ;;
  Ok (setitem cx "Jupiter" (c + SHIFT_JUPITER)).

(** Saturn's wide ring. *)
Definition sat_in : result Z :=
  rp <- radius_px ;; r <- getitem rp "Saturn" ;; Ok (r + 10).
Definition sat_out : result Z :=
  rp <- radius_px ;; r <- getitem rp "Saturn" ;;
  int_round (PrimFloat.mul (float_of_Z r) 1.5%float).

(** ** Moons *)

(** A number of the moon table: an [int] or a [float] literal. *)
Inductive pynum : Type :=
| PInt (z : Z)
| PFloat (x : float).

Definition to_float (n : pynum) : float :=
  match n with
  | PInt z => float_of_Z z
  | PFloat x => x
  end.

Definition moon : Type := (string * pynum * Z)%type.
Definition m_name (m : moon) : string := fst (fst m).
Definition m_r_km (m : moon) : pynum := snd (fst m).
Definition m_a_km (m : moon) : Z := snd m.

Definition MOON_DATA : dict (list moon) :=
  [("Earth", [("Moon", PInt 1737, 384400)]);
   ("Mars", [("Phobos", PFloat 11.27%float, 9377); ("Deimos", PFloat 6.2%float, 23460)]);
   ("Jupiter", [("Io", PInt 1821, 421700); ("Europa", PInt 1560, 671034);
                ("Ganymede", PInt 2634, 1070412); ("Callisto", PInt 2410, 1882709)]);
   ("Saturn", [("Titan", PInt 2575, 1221870); ("Rhea", PInt 764, 527108);
               ("Iapetus", PInt 735, 3560820); ("Dione", PInt 561, 377415)]);
   ("Uranus", [("Miranda", PInt 235, 129900); ("Ariel", PInt 578, 191020);
               ("Umbriel", PInt 584, 266000); ("Titania", PInt 788, 435910);
               ("Oberon", PInt 761, 583520)]);
   ("Neptune", [("Triton", PInt 1353, 354759); ("Proteus", PInt 210, 117647)]);
   ("Pluto", [("Charon", PInt 606, 19591)])].

(** [sorted(moons, key=lambda x: x[2])]: a stable sort on the semi-major axis. *)
Fixpoint insert_by_a (m : moon) (l : list moon) : list moon :=
  match l with
  | [] => [m]
  | m' :: l' =>
      if m_a_km m <? m_a_km m' then m :: m' :: l' else m' :: insert_by_a m l'
  end.

Definition sorted_by_a (l : list moon) : list moon :=
  fold_left (fun acc m => insert_by_a m acc) l [].

(** [max(m[2] for m in moons)]; the maximum of nothing is a [ValueError]. *)
Definition max_a_of (l : list moon) : result Z :=
  match l with
  | [] => Raise ValueError
  | m :: l' => Ok (fold_left (fun acc m' => Z.max acc (m_a_km m')) l' (m_a_km m))
  end.

(** The radius of a moon before tripling: the scaled radius, at least 2. *)
Definition moon_base_px (r_km : pynum) : result Z :=
  s <- scale ;;
  v <- int_round (PrimFloat.mul (to_float r_km) s) ;;
  Ok (Z.max v 2).

(** What one iteration of the moon loop computes. *)
Record moon_place : Type := {
  mp_planet : string;
  mp_name : string;
  mp_idx : Z;
  mp_a_km : Z;
  mp_base_outer : Z;
  mp_mr : Z;
  mp_offset : float;
  mp_mx : Z;
  mp_my : Z;
  mp_disc : bool
}.

Definition place_moon (planet : string) (cxp cyp base_outer max_a : Z)
    (im : Z * moon) : result moon_place :=
  let '(idx, m) := im in
  b <- moon_base_px (m_r_km m) ;;
  let mr := b * 3 in
  frac <- truediv_int (m_a_km m) max_a ;;
  let offset := PrimFloat.add (float_of_Z (base_outer + 60))
                  (PrimFloat.mul frac (float_of_Z base_outer)) in
  off <- int_round offset ;;
  let my := cyp + (if idx mod 2 =? 0 then -1 else 1) * off in
  let mx := cxp in
  Ok {| mp_planet := planet; mp_name := m_name m; mp_idx := idx;
        mp_a_km := m_a_km m; mp_base_outer := base_outer; mp_mr := mr;
        mp_offset := offset; mp_mx := mx; mp_my := my;
        mp_disc := negb (String.eqb planet "Earth" && String.eqb (m_name m) "Moon") |}.

Definition place_moons_of (planet : string) (moons : list moon) : result (list moon_place) :=
  cx <- centre_x ;; cy <- centre_y ;;
  cxp <- getitem cx planet ;;
  cyp <- getitem cy planet ;;
  base_outer <- (if String.eqb planet "Saturn" then sat_out
                 else (ho <- ring_high_outer ;; v <- getitem ho planet ;; the_int v)) ;;
  max_a <- max_a_of moons ;;
  mapM (place_moon planet cxp cyp base_outer max_a) (enumerate 0 (sorted_by_a moons)).

Definition moon_places : result (list (string * list moon_place)) :=
  mapM (fun '(planet, moons) => l <- place_moons_of planet moons ;; Ok (planet, l)) MOON_DATA.

(** ** Canvas rasterizer *)

(** A two-dimensional array is its pixel function, row first; its shape is
    kept beside it.  The canvas is [numpy.zeros((HEIGHT, WIDTH))]: every
    function of this section is given the two dimensions, and the script
    uses them at [HEIGHT] and [WIDTH]. *)
Definition pixels : Type := Z -> Z -> Z.

Record ndarray : Type := {
  nrows : Z;
  ncols : Z;
  px : pixels
}.

Definition zeros : pixels := fun _ _ => 0.

(** The length of [numpy.arange(a, b)]. *)
Definition arange_len (a b : Z) : Z := Z.max 0 (b - a).

(** A bound of a basic slice of an axis of length [n]: a negative bound
    counts from the end, and every bound is clipped to the axis. *)
Definition slice_bound (n i : Z) : Z :=
  if i <? 0 then Z.max 0 (i + n) else Z.min i n.

(** The rows (or columns) [start:stop] of an axis of length [n]: the first
    index and the number of indices. *)
Definition slice (n start stop : Z) : Z * Z :=
  let lo := slice_bound n start in
  let hi := slice_bound n stop in
  (lo, Z.max 0 (hi - lo)).

(** A boolean index is compared with the indexed array axis by axis; NumPy
    makes the comparison only for an axis on which the boolean index is not
    empty, and a boolean index with an empty axis selects nothing. *)
Definition bool_axis_ok (mask_len view_len : Z) : bool :=
  (mask_len =? 0) || (mask_len =? view_len).

(** [view[mask] = values], where [view] is the rectangle of [canvas] that
    starts at row [ya] and column [xa] and has [vh] rows and [vw] columns,
    [mask] has [mh] rows and [mw] columns, and [values i j] is what the
    selected position [(i, j)] receives. *)
Definition assign_masked (canvas : pixels) (ya vh xa vw : Z) (mh mw : Z)
    (mask : Z -> Z -> bool) (values : Z -> Z -> Z) : result pixels :=
  if bool_axis_ok mh vh && bool_axis_ok mw vw then
    Ok (fun y x =>
          let i := y - ya in
          let j := x - xa in
          if (0 <=? i) && (i <? mh) && (0 <=? j) && (j <? mw) && mask i j
          then values i j
          else canvas y x)
  else Raise IndexError.

Section Rasterizer.

Variables width height : Z.

Definition draw_circle (canvas : pixels) (cx cy r val : Z) : result pixels :=
  let x0 := Z.max 0 (cx - r) in
  let x1 := Z.min (width - 1) (cx + r) in
  let y0 := Z.max 0 (cy - r) in
  let y1 := Z.min (height - 1) (cy + r) in
  let mask := fun i j => (x0 + j - cx) ^ 2 + (y0 + i - cy) ^ 2 <=? r ^ 2 in
  let '(ya, vh) := slice height y0 (y1 + 1) in
  let '(xa, vw) := slice width x0 (x1 + 1) in
  assign_masked canvas ya vh xa vw
    (arange_len y0 (y1 + 1)) (arange_len x0 (x1 + 1)) mask (fun _ _ => val).

Definition draw_annulus (canvas : pixels) (cx cy r_in r_out val : Z) : result pixels :=
  let x0 := Z.max 0 (cx - r_out) in
  let x1 := Z.min (width - 1) (cx + r_out) in
  let y0 := Z.max 0 (cy - r_out) in
  let y1 := Z.min (height - 1) (cy + r_out) in
  let d2 := fun i j => (x0 + j - cx) ^ 2 + (y0 + i - cy) ^ 2 in
  let mask := fun i j => (d2 i j <=? r_out ^ 2) && (r_in ^ 2 <=? d2 i j) in
  let '(ya, vh) := slice height y0 (y1 + 1) in
  let '(xa, vw) := slice width x0 (x1 + 1) in
  assign_masked canvas ya vh xa vw
    (arange_len y0 (y1 + 1)) (arange_len x0 (x1 + 1)) mask (fun _ _ => val).

Definition paste_disc (canvas : pixels) (cx cy : Z) (disc : ndarray) : result pixels :=
  let r := (nrows disc - 1) / 2 in
  let y0 := cy - r in
  let y1 := cy + r + 1 in
  let x0 := cx - r in
  let x1 := cx + r + 1 in
  let sy0 := Z.max 0 (- y0) in
  let sx0 := Z.max 0 (- x0) in
  let sy1 := nrows disc - Z.max 0 (y1 - height) in
  let sx1 := ncols disc - Z.max 0 (x1 - width) in
  let y0 := Z.max y0 0 in
  let x0 := Z.max x0 0 in
  let y1 := Z.min y1 height in
  let x1 := Z.min x1 width in
  let '(sya, sh) := slice (nrows disc) sy0 sy1 in
  let '(sxa, sw) := slice (ncols disc) sx0 sx1 in
  let sub_disc := fun i j => px disc (sya + i) (sxa + j) in
  let mask := fun i j => 0 <? sub_disc i j in
  let '(ya, vh) := slice height y0 y1 in
  let '(xa, vw) := slice width x0 x1 in
  assign_masked canvas ya vh xa vw sh sw mask sub_disc.

(** The pixels the two masks select, in canvas coordinates. *)
Definition in_canvas (y x : Z) : bool :=
  (0 <=? x) && (x <? width) && (0 <=? y) && (y <? height).

Definition in_disk (cx cy r y x : Z) : bool :=
  (0 <=? r) && ((x - cx) ^ 2 + (y - cy) ^ 2 <=? r ^ 2).

Definition in_ring (cx cy r_in r_out y x : Z) : bool :=
  (0 <=? r_out) && ((x - cx) ^ 2 + (y - cy) ^ 2 <=? r_out ^ 2)
  && (r_in ^ 2 <=? (x - cx) ^ 2 + (y - cy) ^ 2).


End Rasterizer.

(** *** Clipping of one axis *)

Ltac split_bools :=
  repeat match goal with
  | |- context [?a <? ?b] => destruct (Z.ltb_spec a b)
  | |- context [?a <=? ?b] => destruct (Z.leb_spec a b)
  | |- context [?a =? ?b] => destruct (Z.eqb_spec a b)
  end.

Lemma if_same_test {A : Type} (b1 b2 : bool) (u v : A) :
  b1 = b2 -> (if b1 then u else v) = (if b2 then u else v).
Proof. intros ->. reflexivity. Qed.

Ltac same_test := apply if_same_test; apply Bool.eq_iff_eq_true.

(** The clamped index range of an axis, against the slice taken of it. *)
Lemma clip_axis (n c r t : Z) :
  let a0 := Z.max 0 (c - r) in
  let a1 := Z.min (n - 1) (c + r) in
  let m := arange_len a0 (a1 + 1) in
  bool_axis_ok m (snd (slice n a0 (a1 + 1))) = true /\
  ((0 <= t - fst (slice n a0 (a1 + 1)) < m) <->
   (0 <= t < n /\ c - r <= t <= c + r)) /\
  (0 <= t - fst (slice n a0 (a1 + 1)) < m ->
   a0 + (t - fst (slice n a0 (a1 + 1))) = t).
Proof.
  unfold bool_axis_ok, slice, slice_bound, arange_len; cbn [fst snd].
  split_bools; cbn [orb]; repeat split; try lia.
Qed.

(** The same for the two slices of [paste_disc]: of the patch and of the
    canvas. *)
Lemma paste_axis (n c r t : Z) :
  0 <= n -> 0 <= r ->
  let d := 2 * r + 1 in
  let s0 := Z.max 0 (- (c - r)) in
  let s1 := d - Z.max 0 (c + r + 1 - n) in
  let v0 := Z.max (c - r) 0 in
  let v1 := Z.min (c + r + 1) n in
  (c - r < n -> 0 <= c + r ->
   bool_axis_ok (snd (slice d s0 s1)) (snd (slice n v0 v1)) = true) /\
  (bool_axis_ok (snd (slice d s0 s1)) (snd (slice n v0 v1)) = true ->
   ((0 <= t - fst (slice n v0 v1) < snd (slice d s0 s1)) <->
    (0 <= t < n /\ c - r <= t <= c + r)) /\
   (0 <= t - fst (slice n v0 v1) < snd (slice d s0 s1) ->
    fst (slice d s0 s1) + (t - fst (slice n v0 v1)) = t - (c - r))).
Proof.
  intros Hn Hr. unfold bool_axis_ok, slice, slice_bound; cbn [fst snd].
  split_bools; cbn [orb]; repeat split; try lia.
Qed.

Lemma assign_masked_Ok canvas ya vh xa vw mh mw mask values :
  bool_axis_ok mh vh = true -> bool_axis_ok mw vw = true ->
  assign_masked canvas ya vh xa vw mh mw mask values =
  Ok (fun y x =>
        if (0 <=? y - ya) && (y - ya <? mh) && (0 <=? x - xa) && (x - xa <? mw)
           && mask (y - ya) (x - xa)
        then values (y - ya) (x - xa) else canvas y x).
Proof.
  intros Hy Hx. unfold assign_masked. rewrite Hy, Hx. reflexivity.
Qed.

Lemma assign_masked_inv canvas ya vh xa vw mh mw mask values c' :
  assign_masked canvas ya vh xa vw mh mw mask values = Ok c' ->
  bool_axis_ok mh vh = true /\ bool_axis_ok mw vw = true /\
  forall y x, c' y x =
    if (0 <=? y - ya) && (y - ya <? mh) && (0 <=? x - xa) && (x - xa <? mw)
       && mask (y - ya) (x - xa)
    then values (y - ya) (x - xa) else canvas y x.
Proof.
  unfold assign_masked.
  destruct (bool_axis_ok mh vh); [| discriminate].
  destruct (bool_axis_ok mw vw); [| discriminate].
  simpl. intros H. inversion H. auto.
Qed.

Section RasterizerFacts.

Variables width height : Z.

(** A constant painted through a mask that tests canvas coordinates, on the
    clamped bounding box of centre [(cx, cy)] and half-side [r]. *)
Lemma clipped_fill canvas cx cy r (P : Z -> Z -> bool) val :
  let x0 := Z.max 0 (cx - r) in
  let x1 := Z.min (width - 1) (cx + r) in
  let y0 := Z.max 0 (cy - r) in
  let y1 := Z.min (height - 1) (cy + r) in
  exists c',
    assign_masked canvas
      (fst (slice height y0 (y1 + 1))) (snd (slice height y0 (y1 + 1)))
      (fst (slice width x0 (x1 + 1))) (snd (slice width x0 (x1 + 1)))
      (arange_len y0 (y1 + 1)) (arange_len x0 (x1 + 1))
      (fun i j => P (y0 + i) (x0 + j)) (fun _ _ => val) = Ok c' /\
    forall y x, c' y x =
      if in_canvas width height y x
         && ((cx - r <=? x) && (x <=? cx + r) && (cy - r <=? y) && (y <=? cy + r))
         && P y x
      then val else canvas y x.
Proof.
  cbv zeta.
  eexists; split.
  - apply assign_masked_Ok.
    + apply (clip_axis height cy r 0).
    + apply (clip_axis width cx r 0).
  - intros y x. cbv beta.
    pose proof (clip_axis height cy r y) as (_ & Hy & Hy').
    pose proof (clip_axis width cx r x) as (_ & Hx & Hx').
    cbv zeta in Hy, Hy', Hx, Hx'.
    unfold in_canvas.
    same_test.
    rewrite !andb_true_iff, !Z.leb_le, !Z.ltb_lt.
    split.
    + intros ((((H1 & H2) & H3) & H4) & H5).
      rewrite Hy', Hx' in H5 by lia.
      repeat split; try lia; exact H5.
    + intros ((H1 & H2) & H3).
      rewrite Hy', Hx' by lia.
      repeat split; try lia; exact H3.
Qed.

Lemma draw_circle_pixels canvas cx cy r val :
  exists c', draw_circle width height canvas cx cy r val = Ok c' /\
    forall y x, c' y x =
      if in_canvas width height y x && in_disk cx cy r y x then val else canvas y x.
Proof.
  destruct (clipped_fill canvas cx cy r
              (fun y x => (x - cx) ^ 2 + (y - cy) ^ 2 <=? r ^ 2) val)
    as (c' & Hc & Hpx).
  exists c'. split.
  - unfold draw_circle.
    destruct (slice height _ _) as [ya vh].
    destruct (slice width _ _) as [xa vw]. exact Hc.
  - intros y x. rewrite Hpx. unfold in_disk.
    same_test.
    rewrite !andb_true_iff, !Z.leb_le. split.
    + intros ((H1 & H2) & H3). repeat split; auto; lia.
    + intros (H1 & H2 & H3). repeat split; auto; nia.
Qed.

Lemma draw_annulus_pixels canvas cx cy r_in r_out val :
  exists c', draw_annulus width height canvas cx cy r_in r_out val = Ok c' /\
    forall y x, c' y x =
      if in_canvas width height y x && in_ring cx cy r_in r_out y x
      then val else canvas y x.
Proof.
  destruct (clipped_fill canvas cx cy r_out
              (fun y x => ((x - cx) ^ 2 + (y - cy) ^ 2 <=? r_out ^ 2)
                          && (r_in ^ 2 <=? (x - cx) ^ 2 + (y - cy) ^ 2)) val)
    as (c' & Hc & Hpx).
  exists c'. split.
  - unfold draw_annulus.
    destruct (slice height _ _) as [ya vh].
    destruct (slice width _ _) as [xa vw]. exact Hc.
  - intros y x. rewrite Hpx. unfold in_ring.
    same_test.
    rewrite !andb_true_iff, !Z.leb_le. split.
    + intros ((H1 & H2) & H3 & H4). repeat split; auto; lia.
    + intros (H1 & (H2 & H3) & H4). repeat split; auto; nia.
Qed.


End RasterizerFacts.

Section PasteFacts.

Variables width height : Z.

Definition in_patch (cx cy r y x : Z) : bool :=
  (cx - r <=? x) && (x <=? cx + r) && (cy - r <=? y) && (y <=? cy + r).

Lemma paste_disc_pixels canvas cx cy disc r :
  0 <= width -> 0 <= height ->
  0 <= r -> nrows disc = 2 * r + 1 -> ncols disc = 2 * r + 1 ->
  (cx - r < width -> 0 <= cx + r -> cy - r < height -> 0 <= cy + r ->
   exists c', paste_disc width height canvas cx cy disc = Ok c') /\
  (forall c', paste_disc width height canvas cx cy disc = Ok c' ->
   forall y x,
     c' y x =
     if in_canvas width height y x && in_patch cx cy r y x
        && (0 <? px disc (y - (cy - r)) (x - (cx - r)))
     then px disc (y - (cy - r)) (x - (cx - r))
     else canvas y x).
Proof.
  intros Hw Hh Hr Hrows Hcols.
  unfold paste_disc. rewrite Hrows, Hcols.
  replace ((2 * r + 1 - 1) / 2) with r by (rewrite Z.add_simpl_r, Z.mul_comm, Z.div_mul; lia).
  destruct (slice (2 * r + 1) (Z.max 0 (- (cy - r))) _) as [sya sh] eqn:Esy.
  destruct (slice (2 * r + 1) (Z.max 0 (- (cx - r))) _) as [sxa sw] eqn:Esx.
  destruct (slice height _ _) as [ya vh] eqn:Evy.
  destruct (slice width _ _) as [xa vw] eqn:Evx.
  pose proof (fun t => paste_axis height cy r t Hh Hr) as Ay.
  pose proof (fun t => paste_axis width cx r t Hw Hr) as Ax.
  cbv zeta in Ay, Ax. rewrite Esy, Evy in Ay. rewrite Esx, Evx in Ax.
  cbn [fst snd] in Ay, Ax.
  split.
  - intros H1 H2 H3 H4. eexists. apply assign_masked_Ok.
    + apply (Ay 0); assumption.
    + apply (Ax 0); assumption.
  - intros c' Hc y x.
    apply assign_masked_inv in Hc. destruct Hc as (Oy & Ox & Hpx).
    rewrite Hpx.
    destruct (Ay y) as (_ & Hy). destruct (Hy Oy) as (Hy1 & Hy2).
    destruct (Ax x) as (_ & Hx). destruct (Hx Ox) as (Hx1 & Hx2).
    unfold in_canvas, in_patch.
    destruct ((0 <=? y - ya) && (y - ya <? sh) && (0 <=? x - xa) && (x - xa <? sw)) eqn:B.
    + rewrite !andb_true_iff, !Z.leb_le, !Z.ltb_lt in B.
      rewrite Hy2, Hx2 by lia. cbn [andb].
      same_test.
      rewrite !andb_true_iff, !Z.leb_le, !Z.ltb_lt. 
      split; [intros G | intros (_ & G); exact G].
      repeat split; try lia; exact G.
    + cbn [andb].
      match goal with |- _ = (if ?b then _ else _) => assert (E : b = false) end.
      { apply Bool.not_true_is_false. intros G. 
        rewrite !andb_true_iff, !Z.leb_le, !Z.ltb_lt in G.
        apply Bool.not_true_iff_false in B. apply B.
        rewrite !andb_true_iff, !Z.leb_le, !Z.ltb_lt. lia. }
      rewrite E. reflexivity.
Qed.

End PasteFacts.

(** ** Texture projector *)

Module Projector.

Local Open Scope R_scope.

(** [math.atan2(y, x)] *)
Definition atan2 (y x : R) : R :=
  if Rlt_dec 0 x then atan (y / x)
  else if Rlt_dec x 0 then
    (if Rle_dec 0 y then atan (y / x) + PI else atan (y / x) - PI)
  else if Rlt_dec 0 y then PI / 2
  else if Rlt_dec y 0 then - (PI / 2)
  else 0.

(** [math.asin(x)]: a [ValueError] outside [-1, 1]. *)
Definition math_asin (x : R) : result R :=
  if Rle_dec (Rabs x) 1 then Ok (asin x) else Raise ValueError.

(** [int(x)]: truncation towards zero. *)
Definition int_of_R (x : R) : Z :=
  if Rle_dec 0 x then Int_part x else (- Int_part (- x))%Z.

(** [a / b] on integers. *)
Definition py_div (a b : Z) : result R :=
  if (b =? 0)%Z then Raise ZeroDivisionError else Ok (IZR a / IZR b).

(** The source image as an array of normalised intensities. *)
Record texture : Type := {
  tex_h : Z;
  tex_w : Z;
  tex_at : Z -> Z -> R
}.

(** One index of an axis of length [n]: a negative index counts from the
    end, and an index outside [-n, n) is an [IndexError]. *)
Definition index (n i : Z) : result Z :=
  if ((- n <=? i) && (i <? n))%Z
  then Ok (if (i <? 0)%Z then (i + n)%Z else i)
  else Raise IndexError.

(** [tex[vi, ui]] *)
Definition tex_read (tex : texture) (vi ui : Z) : result R :=
  row <- index (tex_h tex) vi ;;
  col <- index (tex_w tex) ui ;;
  Ok (tex_at tex row col).

(** [disc[i, j] = v] on a square patch of side [diam]. *)
Definition disc_set (diam : Z) (disc : pixels) (i j v : Z) : result pixels :=
  row <- index diam i ;;
  col <- index diam j ;;
  Ok (fun y x => if ((y =? row) && (x =? col))%Z then v else disc y x).

(** What the body of the inner loop computes for a pixel inside the disk. *)
Record sample : Type := {
  s_xx : R;
  s_z : R;
  s_lat : R;
  s_lon : R;
  s_u : R;
  s_v : R;
  s_ui : Z;
  s_vi : Z
}.

Definition sample_of (disc_radius_px tw th dx : Z) (yy : R) : result sample :=
  xx <- py_div dx disc_radius_px ;;
  let z := sqrt (Rmax 0 (1 - xx * xx - yy * yy)) in
  lat <- math_asin yy ;;
  let lon := atan2 xx z in
  let u := (lon + PI) / (2 * PI) * IZR (tw - 1) in
  let v := (PI / 2 - lat) / PI * IZR (th - 1) in
  Ok {| s_xx := xx; s_z := z; s_lat := lat; s_lon := lon; s_u := u; s_v := v;
        s_ui := int_of_R u; s_vi := int_of_R v |}.

(** The body of the inner loop. *)
Definition pixel_step (tex : texture) (disc_radius_px dy : Z) (yy : R)
    (disc : pixels) (dx : Z) : result pixels :=
  if (disc_radius_px ^ 2 <? dx * dx + dy * dy)%Z then Ok disc
  else
    s <- sample_of disc_radius_px (tex_w tex) (tex_h tex) dx yy ;;
    t <- tex_read tex (s_vi s) (s_ui s) ;;
    disc_set (disc_radius_px * 2 + 1) disc
      (dy + disc_radius_px) (dx + disc_radius_px) (int_of_R (t * 65535)).

(** [range(lo, hi)] *)
Definition range (lo hi : Z) : list Z :=
  map (fun i => (lo + Z.of_nat i)%Z) (seq 0 (Z.to_nat (hi - lo))).

(** The body of the outer loop. *)
Definition row_step (tex : texture) (disc_radius_px : Z) (disc : pixels) (dy : Z)
    : result pixels :=
  yy <- py_div dy disc_radius_px ;;
  foldM (pixel_step tex disc_radius_px dy yy) disc
    (range (- disc_radius_px) (disc_radius_px + 1)).

Definition map_texture_to_disc (tex : texture) (disc_radius_px : Z) : result ndarray :=
  let diam := (disc_radius_px * 2 + 1)%Z in
  if (diam <? 0)%Z then Raise ValueError
  else
    disc <- foldM (row_step tex disc_radius_px) zeros
              (range (- disc_radius_px) (disc_radius_px + 1)) ;;
    Ok {| nrows := diam; ncols := diam; px := disc |}.


End Projector.

Module ProjectorFacts.
Import Projector.
Local Open Scope R_scope.

Lemma atan2_range (y x : R) :
  0 <= x -> - (PI / 2) <= atan2 y x <= PI / 2.
Proof.
  intros Hx. unfold atan2. pose proof PI_RGT_0 as Hpi.
  destruct (Rlt_dec 0 x) as [Hpos|Hnpos].
  - pose proof (atan_bound (y / x)). lra.
  - destruct (Rlt_dec x 0) as [Hneg|_]; [lra|].
    destruct (Rlt_dec 0 y); [lra|].
    destruct (Rlt_dec y 0); lra.
Qed.

Lemma int_of_R_floor (x : R) :
  0 <= x -> IZR (int_of_R x) <= x < IZR (int_of_R x) + 1.
Proof.
  intros Hx. unfold int_of_R. destruct (Rle_dec 0 x) as [_|N]; [|contradiction].
  pose proof (base_Int_part x). lra.
Qed.

Lemma int_of_R_bounds (x : R) (n : Z) :
  0 <= x <= IZR n -> (0 <= int_of_R x <= n)%Z.
Proof.
  intros [H0 Hn]. pose proof (int_of_R_floor x H0) as [Hlo Hhi].
  split.
  - apply Z.lt_succ_r, lt_IZR. rewrite succ_IZR. lra.
  - apply le_IZR. lra.
Qed.

(** A pixel of the disk, in the normalised coordinates. *)
Lemma in_disk_normalised (r dx dy : Z) :
  (0 < r)%Z -> (dx * dx + dy * dy <= r ^ 2)%Z ->
  let xx := IZR dx / IZR r in
  let yy := IZR dy / IZR r in
  0 <= 1 - xx * xx - yy * yy /\ Rabs yy <= 1.
Proof.
  intros Hr Hd xx yy.
  assert (Hr' : 0 < IZR r) by (apply IZR_lt; exact Hr).
  assert (Hd' : IZR dx * IZR dx + IZR dy * IZR dy <= IZR r * IZR r).
  { rewrite <- !mult_IZR, <- plus_IZR. apply IZR_le. lia. }
  assert (Hsum : xx * xx + yy * yy <= 1).
  { unfold xx, yy.
    replace (IZR dx / IZR r * (IZR dx / IZR r) + IZR dy / IZR r * (IZR dy / IZR r))
      with ((IZR dx * IZR dx + IZR dy * IZR dy) / (IZR r * IZR r)) by (field; lra).
    apply Rmult_le_reg_r with (IZR r * IZR r); [nra|].
    unfold Rdiv. rewrite Rmult_assoc, Rinv_l by nra. lra. }
  split; [lra|].
  apply Rabs_le. split; nra.
Qed.

Lemma unit_fraction (a b : R) :
  0 < b -> 0 <= a <= b -> 0 <= a / b <= 1.
Proof.
  intros Hb [H0 H1]. split.
  - apply Rmult_le_reg_r with b; [exact Hb|].
    unfold Rdiv. rewrite Rmult_assoc, Rinv_l by lra. lra.
  - apply Rmult_le_reg_r with b; [exact Hb|].
    unfold Rdiv. rewrite Rmult_assoc, Rinv_l by lra. lra.
Qed.

Lemma scaled_fraction (t : R) (n : Z) :
  (1 <= n)%Z -> 0 <= t <= 1 -> 0 <= t * IZR (n - 1) <= IZR (n - 1).
Proof.
  intros Hn Ht.
  assert (0 <= IZR (n - 1)) by (apply IZR_le; lia).
  nra.
Qed.

Lemma index_in_range (n i : Z) :
  (0 <= i <= n - 1)%Z -> index n i = Ok i.
Proof.
  intros H. unfold index.
  destruct (Z.leb_spec (- n) i); [|lia].
  destruct (Z.ltb_spec i n); [|lia].
  destruct (Z.ltb_spec i 0); [lia|]. reflexivity.
Qed.

(** The coordinates of a pixel of the disk, and the indices read. *)
Lemma sample_of_in_disk (r tw th dx dy : Z) :
  (0 < r)%Z -> (dx * dx + dy * dy <= r ^ 2)%Z -> (1 <= tw)%Z -> (1 <= th)%Z ->
  exists yy s,
    py_div dy r = Ok yy /\
    sample_of r tw th dx yy = Ok s /\
    yy = IZR dy / IZR r /\
    s_xx s = IZR dx / IZR r /\
    s_z s = sqrt (Rmax 0 (1 - s_xx s * s_xx s - yy * yy)) /\
    s_lat s = asin yy /\
    s_lon s = atan2 (s_xx s) (s_z s) /\
    s_u s = (s_lon s + PI) / (2 * PI) * IZR (tw - 1) /\
    s_v s = (PI / 2 - s_lat s) / PI * IZR (th - 1) /\
    s_ui s = int_of_R (s_u s) /\
    s_vi s = int_of_R (s_v s) /\
    0 <= s_u s <= IZR (tw - 1) /\
    0 <= s_v s <= IZR (th - 1).
Proof.
  intros Hr Hd Htw Hth.
  destruct (in_disk_normalised r dx dy Hr Hd) as [Hz Hyy].
  exists (IZR dy / IZR r).
  unfold sample_of, py_div, math_asin.
  destruct (Z.eqb_spec r 0) as [E|_]; [lia|].
  destruct (Rle_dec (Rabs (IZR dy / IZR r)) 1) as [_|N]; [|contradiction].
  cbn [bind].
  eexists.
  split; [reflexivity|]. split; [reflexivity|].
  cbn [s_xx s_z s_lat s_lon s_u s_v s_ui s_vi].
  repeat (split; [reflexivity|]).
  pose proof PI_RGT_0 as Hpi.
  pose proof (atan2_range (IZR dx / IZR r)
                (sqrt (Rmax 0 (1 - IZR dx / IZR r * (IZR dx / IZR r)
                               - IZR dy / IZR r * (IZR dy / IZR r))))
                (sqrt_pos _)) as Hlon.
  pose proof (asin_bound (IZR dy / IZR r)) as Hlat.
  split.
  - apply scaled_fraction; [exact Htw|]. apply unit_fraction; lra.
  - apply scaled_fraction; [exact Hth|]. apply unit_fraction; lra.
Qed.

(** *** The two loops *)

Lemma in_range (lo hi k : Z) :
  In k (range lo hi) <-> (lo <= k < hi)%Z.
Proof.
  unfold range. rewrite in_map_iff. split.
  - intros (i & <- & Hi). apply in_seq in Hi. lia.
  - intros H. exists (Z.to_nat (k - lo)). split; [lia|].
    apply in_seq. lia.
Qed.

(** A loop whose every iteration writes a set of cells [W a] that depends on
    the item only: the cells of all items are written, the others are kept. *)
Section Writes.

Context {A : Type}.
Variable step : pixels -> A -> result pixels.
Variable W : A -> Z -> Z -> option Z.

Definition writes (l : list A) : Prop :=
  forall d a, In a l ->
    exists d', step d a = Ok d' /\
      forall y x, d' y x = match W a y x with Some v => v | None => d y x end.

Definition agree (l : list A) : Prop :=
  forall a b y x v w, In a l -> In b l ->
    W a y x = Some v -> W b y x = Some w -> v = w.

Lemma written_or_not (l : list A) (y x : Z) :
  (exists b v, In b l /\ W b y x = Some v) \/ (forall b, In b l -> W b y x = None).
Proof.
  induction l as [|a l IH].
  - right. intros b [].
  - destruct (W a y x) as [v|] eqn:E.
    + left. exists a, v. split; [left; reflexivity | exact E].
    + destruct IH as [(b & v & Hb & Hv)|IH].
      * left. exists b, v. split; [right; exact Hb | exact Hv].
      * right. intros b [<-|Hb]; [exact E | apply IH; exact Hb].
Qed.

Lemma foldM_writes (l : list A) :
  writes l -> agree l ->
  forall d, exists d', foldM step d l = Ok d' /\
    (forall a y x v, In a l -> W a y x = Some v -> d' y x = v) /\
    (forall y x, (forall a, In a l -> W a y x = None) -> d' y x = d y x).
Proof.
  induction l as [|a0 l IH]; intros Hw Ha d.
  - exists d. split; [reflexivity|]. split.
    + intros a y x v [].
    + reflexivity.
  - destruct (Hw d a0 (or_introl eq_refl)) as (d1 & Hstep & Hd1).
    assert (Hw' : writes l) by (intros d0 a Hin; apply Hw; right; exact Hin).
    assert (Ha' : agree l).
    { intros a b y x v w Hina Hinb. apply Ha; right; assumption. }
    destruct (IH Hw' Ha' d1) as (d' & Hfold & Hset & Hkeep).
    exists d'. split; [cbn [foldM bind]; rewrite Hstep; exact Hfold|]. split.
    + intros a y x v Hin Hv.
      destruct (written_or_not l y x) as [(b & w & Hb & Hbw)|Hnone].
      * rewrite (Hset b y x w Hb Hbw). symmetry.
        apply (Ha a b y x v w Hin (or_intror Hb) Hv Hbw).
      * rewrite (Hkeep y x Hnone), Hd1.
        destruct Hin as [<-|Hin]; [rewrite Hv; reflexivity|].
        rewrite (Hnone a Hin) in Hv. discriminate.
    + intros y x Hnone.
      rewrite (Hkeep y x (fun a Hin => Hnone a (or_intror Hin))), Hd1.
      rewrite (Hnone a0 (or_introl eq_refl)). reflexivity.
Qed.

End Writes.


(** The coordinates as the design gives them, and the value a pixel of the
    disk receives when the indices are the truncated coordinates. *)
Definition coord_u (r tw dx dy : Z) : R :=
  let xx := IZR dx / IZR r in
  let yy := IZR dy / IZR r in
  let lon := atan2 xx (sqrt (Rmax 0 (1 - xx * xx - yy * yy))) in
  (lon + PI) / (2 * PI) * IZR (tw - 1).

Definition coord_v (r th dy : Z) : R :=
  let lat := asin (IZR dy / IZR r) in
  (PI / 2 - lat) / PI * IZR (th - 1).

Definition texel (tex : texture) (r dx dy : Z) : Z :=
  int_of_R (tex_at tex (int_of_R (coord_v r (tex_h tex) dy))
                       (int_of_R (coord_u r (tex_w tex) dx dy)) * 65535).

Definition cell (tex : texture) (r dy dx y x : Z) : option Z :=
  if ((y =? dy + r) && (x =? dx + r) && (dx * dx + dy * dy <=? r ^ 2))%Z
  then Some (texel tex r dx dy) else None.

Section Loops.

Variable tex : texture.
Variable r : Z.
Hypothesis r_pos : (0 < r)%Z.
Hypothesis tw_pos : (1 <= tex_w tex)%Z.
Hypothesis th_pos : (1 <= tex_h tex)%Z.

Lemma pixel_step_cell (dy dx : Z) (d : pixels) :
  (- r <= dx <= r)%Z -> (- r <= dy <= r)%Z ->
  exists d', pixel_step tex r dy (IZR dy / IZR r) d dx = Ok d' /\
    forall y x, d' y x = match cell tex r dy dx y x with Some v => v | None => d y x end.
Proof.
  intros Hdx Hdy. unfold pixel_step, cell.
  destruct (Z.ltb_spec (r ^ 2) (dx * dx + dy * dy)) as [Hout|Hin].
  - exists d. split; [reflexivity|]. intros y x.
    destruct (Z.leb_spec (dx * dx + dy * dy) (r ^ 2)); [lia|].
    rewrite andb_false_r. reflexivity.
  - destruct (sample_of_in_disk r (tex_w tex) (tex_h tex) dx dy r_pos Hin tw_pos th_pos)
      as (yy & s & Hyy & Hs & Eyy & Exx & Ez & Elat & Elon & Eu & Ev & Eui & Evi & Hu & Hv).
    subst yy. rewrite Hs. cbn [bind].
    assert (Bu : (0 <= s_ui s <= tex_w tex - 1)%Z)
      by (rewrite Eui; apply int_of_R_bounds; exact Hu).
    assert (Bv : (0 <= s_vi s <= tex_h tex - 1)%Z)
      by (rewrite Evi; apply int_of_R_bounds; exact Hv).
    unfold tex_read. rewrite (index_in_range _ _ Bv), (index_in_range _ _ Bu).
    cbn [bind]. unfold disc_set.
    rewrite !index_in_range by lia. cbn [bind].
    eexists. split; [reflexivity|]. intros y x. cbv beta.
    destruct (Z.leb_spec (dx * dx + dy * dy) (r ^ 2)); [|lia].
    rewrite andb_true_r.
    destruct ((y =? dy + r) && (x =? dx + r))%Z; [|reflexivity].
    unfold texel, coord_u, coord_v. cbv zeta.
    rewrite Eui, Evi, Eu, Ev, Elon, Elat, Ez, Exx. reflexivity.
Qed.

Lemma cell_agree (dy : Z) (l : list Z) :
  agree (cell tex r dy) l.
Proof.
  intros a b y x v w _ _. unfold cell.
  destruct (Z.eqb_spec y (dy + r)); cbn [andb]; [|discriminate].
  destruct (Z.eqb_spec x (a + r)); cbn [andb]; [|discriminate].
  destruct (Z.eqb_spec x (b + r)); cbn [andb]; [|discriminate].
  assert (a = b) by lia. subst b.
  destruct (_ <=? _)%Z; congruence.
Qed.

(** The cells one row writes. *)
Definition row_cell (dy y x : Z) : option Z :=
  if ((- r <=? x - r) && (x - r <=? r))%Z then cell tex r dy (x - r) y x else None.

Lemma row_step_cell (dy : Z) (d : pixels) :
  (- r <= dy <= r)%Z ->
  exists d', row_step tex r d dy = Ok d' /\
    forall y x, d' y x = match row_cell dy y x with Some v => v | None => d y x end.
Proof.
  intros Hdy. unfold row_step, py_div.
  destruct (Z.eqb_spec r 0); [lia|]. cbn [bind].
  destruct (foldM_writes (pixel_step tex r dy (IZR dy / IZR r)) (cell tex r dy)
              (range (- r) (r + 1))) with (d := d) as (d' & Hfold & Hset & Hkeep).
  - intros d0 dx Hin. apply in_range in Hin. apply pixel_step_cell; lia.
  - apply cell_agree.
  - exists d'. split; [exact Hfold|]. intros y x. unfold row_cell.
    destruct (Z.leb_spec (- r) (x - r)); cbn [andb].
    + destruct (Z.leb_spec (x - r) r); cbn [andb].
      * destruct (cell tex r dy (x - r) y x) as [v|] eqn:E.
        -- apply (Hset (x - r)%Z y x v); [apply in_range; lia | exact E].
        -- apply Hkeep. intros dx Hin.
           destruct (Z.eq_dec dx (x - r)) as [->|Hne]; [exact E|].
           unfold cell.
           destruct (Z.eqb_spec x (dx + r)); [lia|].
           rewrite andb_false_r. reflexivity.
      * apply Hkeep. intros dx Hin. apply in_range in Hin. unfold cell.
        destruct (Z.eqb_spec x (dx + r)); [lia|]. rewrite andb_false_r. reflexivity.
    + apply Hkeep. intros dx Hin. apply in_range in Hin. unfold cell.
      destruct (Z.eqb_spec x (dx + r)); [lia|]. rewrite andb_false_r. reflexivity.
Qed.

Lemma row_cell_agree (l : list Z) : agree row_cell l.
Proof.
  intros a b y x v w _ _. unfold row_cell, cell.
  destruct ((- r <=? x - r) && (x - r <=? r))%Z; [|discriminate].
  destruct (Z.eqb_spec y (a + r)); cbn [andb]; [|discriminate].
  destruct (Z.eqb_spec y (b + r)); cbn [andb]; [|discriminate].
  assert (a = b) by lia. subst b.
  destruct (_ && _)%bool; congruence.
Qed.

(** The patch [map_texture_to_disc] returns. *)
Lemma map_texture_to_disc_cells :
  exists disc, map_texture_to_disc tex r = Ok disc /\
    nrows disc = (2 * r + 1)%Z /\ ncols disc = (2 * r + 1)%Z /\
    forall dx dy, (- r <= dx <= r)%Z -> (- r <= dy <= r)%Z ->
      px disc (dy + r)%Z (dx + r)%Z =
      if (dx * dx + dy * dy <=? r ^ 2)%Z then texel tex r dx dy else 0%Z.
Proof.
  unfold map_texture_to_disc.
  destruct (Z.ltb_spec (r * 2 + 1) 0); [lia|].
  destruct (foldM_writes (row_step tex r) row_cell (range (- r) (r + 1)))
    with (d := zeros) as (d' & Hfold & Hset & Hkeep).
  - intros d0 dy Hin. apply in_range in Hin. apply row_step_cell; lia.
  - apply row_cell_agree.
  - rewrite Hfold. cbn [bind]. eexists. split; [reflexivity|].
    cbn [nrows ncols px]. split; [lia|]. split; [lia|].
    intros dx dy Hdx Hdy.
    destruct (Z.leb_spec (dx * dx + dy * dy) (r ^ 2)) as [Hin|Hout].
    + apply (Hset dy). { apply in_range; lia. }
      unfold row_cell, cell.
      replace (dx + r - r)%Z with dx by lia.
      rewrite !Z.eqb_refl.
      destruct (Z.leb_spec (- r) dx); [|lia].
      destruct (Z.leb_spec dx r); [|lia].
      destruct (Z.leb_spec (dx * dx + dy * dy) (r ^ 2)); [|lia].
      reflexivity.
    + rewrite Hkeep; [reflexivity|].
      intros dy' Hin. unfold row_cell, cell.
      replace (dx + r - r)%Z with dx by lia.
      destruct ((- r <=? dx) && (dx <=? r))%Z; [|reflexivity].
      destruct (Z.eqb_spec (dy + r) (dy' + r)); cbn [andb]; [|reflexivity].
      assert (dy' = dy) by lia. subst dy'.
      destruct (Z.leb_spec (dx * dx + dy * dy) (r ^ 2)); [lia|].
      rewrite andb_false_r. reflexivity.
Qed.

End Loops.

End ProjectorFacts.

(** ** Asteroid belt *)

(** The belt bounds, from the four values of the original layout they are
    read from. *)
Definition belt_bounds_of (cx_mars ho_mars cx_jupiter lo_jupiter : Z) : Z * Z :=
  let belt_left_base := cx_mars + ho_mars + 250 in
  let belt_right_base := cx_jupiter - lo_jupiter - 250 in
  let belt_left := belt_left_base + BELT_LEFT_SHIFT in
  let belt_right := belt_right_base + BELT_RIGHT_SHIFT in
  let belt_left := Z.max 0 belt_left in
  let belt_right := Z.min (WIDTH - 1) belt_right in
  (belt_left, belt_right).

Definition belt_bounds : result (Z * Z) :=
  cb <- centre_x_base ;;
  ho_b <- ring_high_outer_base ;;
  lo_b <- ring_low_outer_base ;;
  cx_mars <- getitem cb "Mars" ;;
  ho_mars <- (v <- getitem ho_b "Mars" ;; the_int v) ;;
  cx_jupiter <- getitem cb "Jupiter" ;;
  lo_jupiter <- getitem lo_b "Jupiter" ;;
  Ok (belt_bounds_of cx_mars ho_mars cx_jupiter lo_jupiter).

Definition dwarf_defs : list (string * Z) :=
  [("Ceres", 473); ("Vesta", 262); ("Pallas", 272); ("Hygiea", 215)].

(** The radius of a dwarf body: the scaled radius, at least 30. *)
Definition core_r_of (r_km : Z) : result Z :=
  s <- scale ;;
  v <- int_round (PrimFloat.mul (float_of_Z r_km) s) ;;
  Ok (Z.max v 30).

(** A [while] loop with a budget of iterations. *)
Inductive outcome (S : Type) : Type :=
| Finished (s : S)
| Exhausted.

Arguments Finished {S} s.
Arguments Exhausted {S}.

Fixpoint while {S : Type} (fuel : nat) (cond : S -> bool)
    (body : S -> result S) (s : S) : result (outcome S) :=
  if cond s then
    match fuel with
    | O => Ok Exhausted
    | Datatypes.S fuel' => s' <- body s ;; while fuel' cond body s'
    end
  else Ok (Finished s).

(** The names the script binds at module level, in the order of their first
    binding.  The local names of [draw_circle], [draw_annulus],
    [map_texture_to_disc] and [paste_disc] (among them [x], [y], [d2],
    [mask]) are not module names. *)
Definition module_names : list string :=
  ["np"; "Image"; "math"; "random";
   "WIDTH"; "HEIGHT"; "GRAY_PLANET"; "GRAY_ORBIT_RING"; "GRAY_SAT_RING";
   "GRAY_ASTEROID"; "LEFT_MARGIN"; "RIGHT_MARGIN"; "EARTH_PX";
   "MIN_GAP_MARS_JUP"; "LOW_OFF"; "LOW_THICK"; "HIGH_GAP"; "HIGH_THICK";
   "MOON_RING_OFF"; "MOON_RING_THICK"; "SHIFT_MERCURY"; "SHIFT_JUPITER";
   "BELT_LEFT_SHIFT"; "BELT_RIGHT_SHIFT"; "PLANET_KM"; "GAS"; "SATURN"; "ROCKY";
   "scale"; "raw_px"; "shrink"; "radius_base"; "low_outer_from_r";
   "ring_low_outer_base"; "ring_high_inner_base"; "ring_high_outer_base";
   "centre_x_base"; "INNER"; "inner_right"; "inner_spacing"; "i"; "p";
   "dist_jp_pl"; "centre_y"; "centre_x"; "radius_px"; "ring_low_outer";
   "ring_high_inner"; "ring_high_outer"; "canvas"; "draw_circle"; "draw_annulus";
   "low_in"; "hi_in"; "sat_in"; "sat_out"; "map_texture_to_disc"; "paste_disc";
   "mars_disc"; "moon_radius_px"; "base_outer_earth"; "moon_offset"; "moon_cx";
   "moon_cy"; "moon_disc"; "mercury_disc"; "venus_disc"; "pluto_disc";
   "MOON_DATA"; "planet"; "moons"; "cxp"; "cyp"; "base_outer"; "max_a"; "idx";
   "m_name"; "r_km"; "a_km"; "mr"; "offset"; "my"; "mx"; "r_in";
   "belt_left_base"; "belt_right_base"; "belt_left"; "belt_right"; "asteroids";
   "dwarf_defs"; "dwarf_ring_extents"; "name"; "core_r"; "placed"; "tries";
   "ax"; "ay"; "ok"; "ex"; "ey"; "eR"; "r"; "ax2"; "ay2"; "ar2"; "dx"; "dy"; "dr"].

(** Reading a name of the module namespace; the integer variables only. *)
Definition load_name (ns : dict Z) (k : string) : result Z :=
  if mem k module_names then
    match getitem ns k with
    | Ok v => Ok v
    | Raise _ => Raise (NameError k)
    end
  else Raise (NameError k).

Module Belt.

Definition asteroid : Type := (Z * Z * Z)%type.

Record state : Type := {
  canvas : pixels;
  draws : nat;
  asteroids : list asteroid;
  dwarf_ring_extents : list asteroid
}.

Section Populate.

(** The generator, as the stream of its raw draws. *)
Variable rng : nat -> Z.
Variables belt_left belt_right : Z.

(** [random.randint(a, b)]: an integer of [a .. b], or a [ValueError] when
    the range is empty. *)
Definition randint (a b : Z) (n : nat) : result (Z * nat) :=
  if b <? a then Raise ValueError
  else Ok (a + rng n mod (b - a + 1), S n).

(** The [for] loop over [dwarf_ring_extents] of the dwarf tier. *)
Definition dwarf_clear (core_r ax ay : Z) (extents : list asteroid) : bool :=
  forallb (fun '(ex, ey, eR) =>
             negb ((ax - ex) ^ 2 + (ay - ey) ^ 2
                   <? (core_r + MOON_RING_OFF + MOON_RING_THICK + eR + 2) ^ 2))
          extents.

(** The body of the [while] loop of one dwarf body, on the belt state and
    the loop variables [placed] and [tries]. *)
Definition dwarf_try (core_r : Z) (s : state * bool * Z) : result (state * bool * Z) :=
  let '(st, placed, tries) := s in
  '(ax, n1) <- randint belt_left belt_right (draws st) ;;
  '(ay, n2) <- randint 0 (HEIGHT - 1) n1 ;;
  if dwarf_clear core_r ax ay (dwarf_ring_extents st) then
    c1 <- draw_circle WIDTH HEIGHT (canvas st) ax ay core_r GRAY_ASTEROID ;;
    let r_in := core_r + MOON_RING_OFF in
    c2 <- draw_annulus WIDTH HEIGHT c1 ax ay r_in (r_in + MOON_RING_THICK)
            GRAY_ORBIT_RING ;;
    Ok ({| canvas := c2; draws := n2;
           asteroids := asteroids st ++ [(ax, ay, core_r)];
           dwarf_ring_extents :=
             dwarf_ring_extents st ++ [(ax, ay, r_in + MOON_RING_THICK)] |},
        true, tries + 1)
  else
    Ok ({| canvas := canvas st; draws := n2; asteroids := asteroids st;
           dwarf_ring_extents := dwarf_ring_extents st |},
        placed, tries + 1).

Definition dwarf_cond (s : state * bool * Z) : bool :=
  let '(_, placed, tries) := s in negb placed && (tries <? 8000).

Definition place_dwarf (fuel : nat) (st : state) (def : string * Z)
    : result (outcome (state * bool)) :=
  core_r <- core_r_of (snd def) ;;
  o <- while fuel dwarf_cond (dwarf_try core_r) (st, false, 0) ;;
  match o with
  | Finished (st', placed, _) => Ok (Finished (st', placed))
  | Exhausted => Ok Exhausted
  end.

Fixpoint place_dwarfs (fuel : nat) (st : state) (defs : list (string * Z))
    : result (outcome state) :=
  match defs with
  | [] => Ok (Finished st)
  | def :: defs' =>
      o <- place_dwarf fuel st def ;;
      match o with
      | Finished (st', _) => place_dwarfs fuel st' defs'
      | Exhausted => Ok Exhausted
      end
  end.

(** The first [for] loop of the filler tier, over [asteroids]. *)
Definition filler_clear (r ax ay : Z) (placed : list asteroid) : bool :=
  forallb (fun '(ax2, ay2, ar2) =>
             negb ((ax - ax2) ^ 2 + (ay - ay2) ^ 2 <? (r + ar2 + 2) ^ 2))
          placed.

(** The test of the second [for] loop, evaluated in the module namespace:
    [(ax - dx)**2 + (y - dy)**2 < (r + dr + 2)**2]. *)
Definition footprint_test (ns : dict Z) : result bool :=
  ax <- load_name ns "ax" ;;
  dx <- load_name ns "dx" ;;
  y <- load_name ns "y" ;;
  dy <- load_name ns "dy" ;;
  r <- load_name ns "r" ;;
  dr <- load_name ns "dr" ;;
  Ok ((ax - dx) ^ 2 + (y - dy) ^ 2 <? (r + dr + 2) ^ 2).

(** The second [for] loop, over [dwarf_ring_extents], with its [break]. *)
Fixpoint footprint_clear (ns : dict Z) (extents : list asteroid) : result bool :=
  match extents with
  | [] => Ok true
  | (dx, dy, dr) :: extents' =>
      let ns := setitem (setitem (setitem ns "dx" dx) "dy" dy) "dr" dr in
      hit <- footprint_test ns ;;
      if hit then Ok false else footprint_clear ns extents'
  end.

(** The body of the filler loop. *)
Definition filler_try (st : state) : result state :=
  '(r, n1) <- randint 8 15 (draws st) ;;
  '(ax, n2) <- randint belt_left belt_right n1 ;;
  '(ay, n3) <- randint 0 (HEIGHT - 1) n2 ;;
  let ns := [("r", r); ("ax", ax); ("ay", ay)] in
  let ok := filler_clear r ax ay (asteroids st) in
  ok <- (if ok then footprint_clear ns (dwarf_ring_extents st) else Ok ok) ;;
  if ok then
    c <- draw_circle WIDTH HEIGHT (canvas st) ax ay r GRAY_ASTEROID ;;
    Ok {| canvas := c; draws := n3;
          asteroids := asteroids st ++ [(ax, ay, r)];
          dwarf_ring_extents := dwarf_ring_extents st |}
  else
    Ok {| canvas := canvas st; draws := n3; asteroids := asteroids st;
          dwarf_ring_extents := dwarf_ring_extents st |}.

Definition filler_cond (st : state) : bool :=
  Z.of_nat (List.length (asteroids st)) <? 200.

(** The whole belt: the dwarf tier, then the filler tier. *)
Definition populate (fuel : nat) (st : state) : result (outcome state) :=
  o <- place_dwarfs fuel st dwarf_defs ;;
  match o with
  | Finished st' => while fuel filler_cond filler_try st'
  | Exhausted => Ok Exhausted
  end.

End Populate.

Definition start (c : pixels) : state :=
  {| canvas := c; draws := O; asteroids := []; dwarf_ring_extents := [] |}.

End Belt.

(** ** Facts about the belt *)

Module BeltFacts.
Import Belt.

Lemma y_is_not_a_module_name : mem "y" module_names = false.
Proof. reflexivity. Qed.

Lemma load_y (ns : dict Z) : load_name ns "y" = Raise (NameError "y").
Proof. unfold load_name. rewrite y_is_not_a_module_name. reflexivity. Qed.

Lemma core_r_eval :
  Forall (fun def => core_r_of (snd def) = Ok 30) dwarf_defs.
Proof. repeat constructor; vm_compute; reflexivity. Qed.

Lemma core_r_of_dwarf (def : string * Z) :
  In def dwarf_defs -> core_r_of (snd def) = Ok 30.
Proof. apply (proj1 (Forall_forall _ _) core_r_eval). Qed.

Section PopulateFacts.

Variable rng : nat -> Z.
Variables belt_left belt_right : Z.
Hypothesis band : belt_left <= belt_right.

Lemma randint_ok (a b : Z) (n : nat) :
  a <= b -> exists v, randint rng a b n = Ok (v, S n) /\ a <= v <= b.
Proof.
  intros H. unfold randint. destruct (Z.ltb_spec b a); [lia|].
  eexists. split; [reflexivity|].
  pose proof (Z.mod_pos_bound (rng n) (b - a + 1)). lia.
Qed.

(** What one try of the dwarf loop does to the belt. *)
Definition tried (core_r : Z) (st : state) (placed : bool)
    (st' : state) (placed' : bool) : Prop :=
  (placed' = true /\
   exists ax ay,
     belt_left <= ax <= belt_right /\ 0 <= ay <= HEIGHT - 1 /\
     dwarf_clear core_r ax ay (dwarf_ring_extents st) = true /\
     asteroids st' = (asteroids st ++ [(ax, ay, core_r)])%list /\
     dwarf_ring_extents st' =
       (dwarf_ring_extents st
          ++ [(ax, ay, core_r + MOON_RING_OFF + MOON_RING_THICK)])%list)
  \/
  (placed' = placed /\ asteroids st' = asteroids st /\
   dwarf_ring_extents st' = dwarf_ring_extents st /\
   dwarf_ring_extents st <> []).

Lemma dwarf_try_ok (core_r : Z) (st : state) (placed : bool) (tries : Z) :
  exists st' placed',
    dwarf_try rng belt_left belt_right core_r (st, placed, tries)
      = Ok (st', placed', tries + 1) /\
    tried core_r st placed st' placed'.
Proof.
  unfold dwarf_try.
  destruct (randint_ok belt_left belt_right (draws st) band) as (ax & -> & Hax).
  cbn [bind].
  destruct (randint_ok 0 (HEIGHT - 1) (S (draws st))) as (ay & -> & Hay);
    [unfold HEIGHT; lia|].
  cbn [bind].
  destruct (dwarf_clear core_r ax ay (dwarf_ring_extents st)) eqn:Hclear.
  - destruct (draw_circle_pixels WIDTH HEIGHT (canvas st) ax ay core_r GRAY_ASTEROID)
      as (c1 & -> & _).
    cbn [bind].
    destruct (draw_annulus_pixels WIDTH HEIGHT c1 ax ay (core_r + MOON_RING_OFF)
                (core_r + MOON_RING_OFF + MOON_RING_THICK) GRAY_ORBIT_RING)
      as (c2 & -> & _).
    cbn [bind].
    eexists. exists true. split; [reflexivity|].
    left. split; [reflexivity|]. exists ax, ay.
    cbn [asteroids dwarf_ring_extents]. auto.
  - eexists. exists placed. split; [reflexivity|].
    right. cbn [asteroids dwarf_ring_extents].
    repeat split; try reflexivity.
    intros E. rewrite E in Hclear. discriminate Hclear.
Qed.

(** The loop of one dwarf body ends within its 8000 tries. *)
Lemma dwarf_loop_ends (core_r : Z) (fuel : nat) :
  forall (st : state) (tries : Z),
    0 <= tries ->
    (Z.to_nat (8000 - tries) <= fuel)%nat ->
    exists st' placed' tries',
      while fuel dwarf_cond (dwarf_try rng belt_left belt_right core_r)
        (st, false, tries) = Ok (Finished (st', placed', tries')) /\
      ((tried core_r st false st' placed') \/
       (8000 <= tries /\ st' = st /\ placed' = false)).
Proof.
  induction fuel as [|fuel IH]; intros st tries Ht Hfuel.
  - assert (8000 <= tries) by lia.
    exists st, false, tries. cbn [while dwarf_cond negb andb].
    destruct (Z.ltb_spec tries 8000); [lia|].
    split; [reflexivity|]. right. auto.
  - cbn [while dwarf_cond negb andb].
    destruct (Z.ltb_spec tries 8000) as [Hlt|Hge].
    + destruct (dwarf_try_ok core_r st false tries) as (st1 & placed1 & -> & Htried).
      cbn [bind].
      destruct placed1.
      * exists st1, true, (tries + 1).
        destruct fuel; cbn [while dwarf_cond negb andb];
          (split; [reflexivity | left; exact Htried]).
      * destruct Htried as [(E & _)|(_ & Ha & He & Hne)]; [discriminate E|].
        destruct (IH st1 (tries + 1)) as (st' & placed' & tries' & Hw & Hrel);
          [lia | lia |].
        exists st', placed', tries'. split; [exact Hw|].
        left.
        destruct Hrel as [[(Hp & ax & ay & H1 & H2 & H3 & H4 & H5)|(Hp & H1 & H2 & H3)]
                         |(_ & -> & ->)].
        -- left. split; [exact Hp|]. exists ax, ay.
           rewrite <- Ha, <- He. auto.
        -- right. rewrite <- Ha, <- He. auto.
        -- right. auto.
    + exists st, false, tries. split; [reflexivity|]. right. auto.
Qed.

(** The ring-inflated footprint of a dwarf body. *)
Definition inflate (a : asteroid) : asteroid :=
  let '(ax, ay, core_r) := a in (ax, ay, core_r + MOON_RING_OFF + MOON_RING_THICK).

(** The dwarf tier appends [l] to the asteroids and the footprints of [l]
    to the ring extents; [l] holds at most [n] bodies, all of radius 30. *)
Definition grown (n : nat) (st st' : state) (l : list asteroid) : Prop :=
  asteroids st' = (asteroids st ++ l)%list /\
  dwarf_ring_extents st' = (dwarf_ring_extents st ++ map inflate l)%list /\
  Forall (fun a => snd a = 30) l /\
  (List.length l <= n)%nat.

Lemma place_dwarf_ok (fuel : nat) (st : state) (def : string * Z) :
  (Z.to_nat 8000 <= fuel)%nat -> In def dwarf_defs ->
  exists st' placed,
    place_dwarf rng belt_left belt_right fuel st def = Ok (Finished (st', placed)) /\
    tried 30 st false st' placed.
Proof.
  intros Hfuel Hdef. unfold place_dwarf.
  rewrite (core_r_of_dwarf def Hdef). cbn [bind].
  destruct (dwarf_loop_ends 30 fuel st 0) as (st' & placed' & tries' & -> & Hrel);
    [lia | lia |].
  cbn [bind]. exists st', placed'. split; [reflexivity|].
  destruct Hrel as [H|(H & _)]; [exact H | lia].
Qed.

Lemma place_dwarfs_ok (fuel : nat) (defs : list (string * Z)) :
  (Z.to_nat 8000 <= fuel)%nat -> incl defs dwarf_defs ->
  forall st, exists st' l,
    place_dwarfs rng belt_left belt_right fuel st defs = Ok (Finished st') /\
    grown (List.length defs) st st' l /\
    (dwarf_ring_extents st = [] -> defs <> [] -> l <> []).
Proof.
  intros Hfuel. induction defs as [|def defs IH]; intros Hincl st.
  - exists st, []. cbn [place_dwarfs]. split; [reflexivity|].
    split; [|intros _ H; contradiction H; reflexivity].
    unfold grown. cbn [map List.length]. rewrite !app_nil_r. auto.
  - cbn [place_dwarfs].
    destruct (place_dwarf_ok fuel st def Hfuel (Hincl def (or_introl eq_refl)))
      as (st1 & placed & -> & Htried).
    cbn [bind].
    destruct (IH (fun d H => Hincl d (or_intror H)) st1) as (st' & l & -> & Hg & _).
    destruct Hg as (Ha & He & Hl & Hn).
    destruct Htried as [(_ & ax & ay & _ & _ & _ & Ha1 & He1)|(_ & Ha1 & He1 & Hne)].
    + exists st', ((ax, ay, 30) :: l). split; [reflexivity|]. split.
      * unfold grown. rewrite Ha, He, Ha1, He1, <- !app_assoc.
        cbn [map inflate app List.length].
        repeat split; auto. lia.
      * intros _ _. discriminate.
    + exists st', l. split; [reflexivity|]. split.
      * unfold grown. rewrite Ha, He, Ha1, He1. cbn [List.length].
        repeat split; auto.
      * intros E. contradiction.
Qed.

(** *** The filler tier *)

Lemma footprint_clear_raises (r ax ay : Z) (extents : list asteroid) :
  extents <> [] ->
  footprint_clear [("r", r); ("ax", ax); ("ay", ay)] extents = Raise (NameError "y").
Proof.
  destruct extents as [|[[dx dy] dr] rest]; [intros H; contradiction H; reflexivity|].
  intros _. reflexivity.
Qed.

Lemma filler_try_adds_nothing (st st' : state) :
  dwarf_ring_extents st <> [] ->
  filler_try rng belt_left belt_right st = Ok st' ->
  asteroids st' = asteroids st /\ dwarf_ring_extents st' = dwarf_ring_extents st.
Proof.
  intros Hne. unfold filler_try.
  destruct (randint rng 8 15 (draws st)) as [[r n1]|e]; [|discriminate].
  cbn [bind].
  destruct (randint rng belt_left belt_right n1) as [[ax n2]|e]; [|discriminate].
  cbn [bind].
  destruct (randint rng 0 (HEIGHT - 1) n2) as [[ay n3]|e]; [|discriminate].
  cbn [bind].
  destruct (filler_clear r ax ay (asteroids st)).
  - rewrite (footprint_clear_raises r ax ay _ Hne). discriminate.
  - cbn [bind]. intros H. inversion H. cbn [asteroids dwarf_ring_extents]. auto.
Qed.

(** Once a dwarf body is placed, the filler loop never comes to its end. *)
Lemma filler_loop_never_ends (fuel : nat) :
  forall st st',
    dwarf_ring_extents st <> [] ->
    (List.length (asteroids st) < 200)%nat ->
    while fuel filler_cond (filler_try rng belt_left belt_right) st <> Ok (Finished st').
Proof.
  induction fuel as [|fuel IH]; intros st st' Hne Hlen;
    cbn [while]; unfold filler_cond;
    destruct (Z.ltb_spec (Z.of_nat (List.length (asteroids st))) 200); try lia.
  - discriminate.
  - destruct (filler_try rng belt_left belt_right st) as [st1|e] eqn:E;
      cbn [bind]; [|discriminate].
    destruct (filler_try_adds_nothing st st1 Hne E) as [Ha He].
    apply IH; [rewrite He; exact Hne | rewrite Ha; exact Hlen].
Qed.

Lemma populate_never_completes (fuel : nat) (c : pixels) (st' : state) :
  (Z.to_nat 8000 <= fuel)%nat ->
  populate rng belt_left belt_right fuel (start c) <> Ok (Finished st').
Proof.
  intros Hfuel. unfold populate.
  destruct (place_dwarfs_ok fuel dwarf_defs Hfuel (incl_refl _) (start c))
    as (st1 & l & -> & (Ha & He & Hl & Hn) & Hl').
  cbn [bind].
  assert (Hne : l <> []) by (apply Hl'; [reflexivity | discriminate]).
  apply filler_loop_never_ends.
  - rewrite He. cbn [start dwarf_ring_extents app].
    destruct l; [contradiction Hne; reflexivity | discriminate].
  - rewrite Ha. cbn [start asteroids app]. cbn [dwarf_defs List.length] in Hn. lia.
Qed.

End PopulateFacts.

End BeltFacts.

(** ** Rings and bodies drawn *)

(** An annulus the script draws around a body: the body it belongs to with
    its radius, the offset constant it is built from, and the arguments of
    the [draw_annulus] call. *)
Record ring : Type := {
  ring_owner : string;
  owner_r : Z;
  ring_off : Z;
  ring_cx : Z;
  ring_cy : Z;
  ring_in : Z;
  ring_out : Z;
  ring_val : Z
}.

(** A filled disk the script draws: [draw_circle] or a pasted texture. *)
Record body : Type := {
  body_name : string;
  body_cx : Z;
  body_cy : Z;
  body_r : Z
}.

(** The two orbit rings of every planet but Saturn. *)
Definition planet_rings : result (list ring) :=
  rp <- radius_px ;; cx <- centre_x ;; cy <- centre_y ;;
  hi <- ring_high_inner ;;
  l <- mapM (fun p =>
         if negb (String.eqb p SATURN) then
           r <- getitem rp p ;;
           let low_in := r + LOW_OFF in
           x <- getitem cx p ;; y <- getitem cy p ;;
           hi_in <- (v <- getitem hi p ;; the_int v) ;;
           Ok [ {| ring_owner := p; owner_r := r; ring_off := LOW_OFF;
                   ring_cx := x; ring_cy := y;
                   ring_in := low_in; ring_out := low_in + LOW_THICK;
                   ring_val := GRAY_ORBIT_RING |};
                {| ring_owner := p; owner_r := r; ring_off := LOW_OFF;
                   ring_cx := x; ring_cy := y;
                   ring_in := hi_in; ring_out := hi_in + HIGH_THICK;
                   ring_val := GRAY_ORBIT_RING |} ]
         else Ok [])
       (keys PLANET_KM) ;;
  Ok (List.concat l).

Definition saturn_ring : result ring :=
  rp <- radius_px ;; cx <- centre_x ;; cy <- centre_y ;;
  r <- getitem rp "Saturn" ;;
  i <- sat_in ;; o <- sat_out ;;
  x <- getitem cx "Saturn" ;; y <- getitem cy "Saturn" ;;
  Ok {| ring_owner := "Saturn"; owner_r := r; ring_off := 10;
        ring_cx := x; ring_cy := y; ring_in := i; ring_out := o;
        ring_val := GRAY_SAT_RING |}.

(** The ring of every moon. *)
Definition moon_ring (m : moon_place) : ring :=
  let r_in := mp_mr m + MOON_RING_OFF in
  {| ring_owner := mp_name m; owner_r := mp_mr m; ring_off := MOON_RING_OFF;
     ring_cx := mp_mx m; ring_cy := mp_my m;
     ring_in := r_in; ring_out := r_in + MOON_RING_THICK;
     ring_val := GRAY_ORBIT_RING |}.

Definition moon_rings : result (list ring) :=
  mp <- moon_places ;;
  Ok (map moon_ring (List.concat (map snd mp))).

Definition rings_drawn : result (list ring) :=
  a <- planet_rings ;; s <- saturn_ring ;; m <- moon_rings ;;
  Ok (a ++ [s] ++ m)%list.

(** The disks of the planets. *)
Definition planet_bodies : result (list body) :=
  rp <- radius_px ;; cx <- centre_x ;; cy <- centre_y ;;
  mapM (fun p =>
          x <- getitem cx p ;; y <- getitem cy p ;; r <- getitem rp p ;;
          Ok {| body_name := p; body_cx := x; body_cy := y; body_r := r |})
       (keys PLANET_KM).

(** The textured Moon: its radius and its centre above the Earth. *)
Definition moon_radius_px : result Z :=
  s <- scale ;;
  v <- int_round (PrimFloat.mul (float_of_Z 1737) s) ;;
  Ok (Z.max v 2 * 3).

Definition textured_moon : result body :=
  r <- moon_radius_px ;;
  ho <- ring_high_outer ;;
  base_outer_earth <- (v <- getitem ho "Earth" ;; the_int v) ;;
  let moon_offset := base_outer_earth + 60 + base_outer_earth in
  cx <- centre_x ;; cy <- centre_y ;;
  moon_cx <- getitem cx "Earth" ;;
  cye <- getitem cy "Earth" ;;
  Ok {| body_name := "Moon"; body_cx := moon_cx; body_cy := cye - moon_offset;
        body_r := r |}.

(** The disks of the moon loop: every moon but the textured one. *)
Definition moon_body (m : moon_place) : body :=
  {| body_name := mp_name m; body_cx := mp_mx m; body_cy := mp_my m;
     body_r := mp_mr m |}.

Definition moon_bodies : result (list body) :=
  mp <- moon_places ;;
  Ok (map moon_body (filter mp_disc (List.concat (map snd mp)))).

Definition bodies_drawn : result (list body) :=
  a <- planet_bodies ;; t <- textured_moon ;; m <- moon_bodies ;;
  Ok (a ++ [t] ++ m)%list.

(** Painting a list of rings and of bodies on the canvas. *)
Definition paint_rings (c : pixels) (l : list ring) : result pixels :=
  foldM (fun c g =>
           draw_annulus WIDTH HEIGHT c (ring_cx g) (ring_cy g)
             (ring_in g) (ring_out g) (ring_val g)) c l.

Definition paint_bodies (c : pixels) (l : list body) : result pixels :=
  foldM (fun c b =>
           draw_circle WIDTH HEIGHT c (body_cx b) (body_cy b) (body_r b) GRAY_PLANET)
        c l.

(** * Properties *)

(** ** Scale and radius model *)

Lemma radius_px_eval :
  radius_px =
  Ok [("Mercury", 171); ("Venus", 426); ("Earth", 450); ("Mars", 240);
      ("Jupiter", 450); ("Saturn", 375); ("Uranus", 163); ("Neptune", 158);
      ("Pluto", 84)].
Proof. vm_compute. reflexivity. Qed.

(** The final radius of a moon is three times its radius before tripling,
    which is at least 2. *)
Definition moon_tripled (places : list moon_place) (m : moon) : Prop :=
  exists b pl,
    moon_base_px (m_r_km m) = Ok b /\ 2 <= b /\
    In pl places /\ mp_name pl = m_name m /\ mp_mr pl = 3 * b /\ 0 < mp_mr pl.

Definition planet_tripled (rb rp : dict Z) (p : string) : Prop :=
  exists b, getitem rb p = Ok b /\ getitem rp p = Ok (3 * b).

Definition planet_kept (rb rp : dict Z) (p : string) : Prop :=
  exists b, getitem rb p = Ok b /\ getitem rp p = Ok b.

Ltac in_list := (left; reflexivity) + (right; in_list).

Ltac forall_list tac :=
  repeat (apply Forall_cons; [tac|]); try apply Forall_nil.

(** C4. Every planet and every moon has a strictly positive pixel radius;
    the final radius of every rocky planet and of every moon (the Moon's
    texture disc included) is exactly three times the radius derived before
    the override, the moons' after their floor of 2; the gas giants keep
    their base radius.  With 6371 km at 150 px, 2440 km gives the base
    radius 57, and the override gives 171. *)
Theorem radii_positive_and_tripled :
  exists rb rp mp,
    radius_base = Ok rb /\ radius_px = Ok rp /\ moon_places = Ok mp /\
    keys rp = keys PLANET_KM /\
    Forall (fun e => 0 < snd e) rp /\
    Forall (planet_tripled rb rp) ROCKY /\
    Forall (planet_kept rb rp) GAS /\
    Forall (fun e => Forall (moon_tripled (List.concat (map snd mp))) (snd e)) MOON_DATA /\
    Forall (fun pl => 0 < mp_mr pl) (List.concat (map snd mp)) /\
    (exists b, moon_base_px (PInt 1737) = Ok b /\ moon_radius_px = Ok (3 * b)) /\
    int_round (PrimFloat.mul (float_of_Z 2440)
                 (PrimFloat.div (float_of_Z 150) (float_of_Z 6371))) = Ok 57 /\
    getitem rb "Mercury" = Ok 57 /\
    getitem rp "Mercury" = Ok 171.
Proof.
  eexists. eexists. eexists.
  split; [exact radius_base_eval|].
  split; [exact radius_px_eval|].
  split; [vm_compute; reflexivity|].
  split; [reflexivity|].
  split; [repeat constructor|].
  split.
  { repeat constructor; eexists; split; vm_compute; reflexivity. }
  split.
  { repeat constructor; eexists; split; vm_compute; reflexivity. }
  split.
  { unfold MOON_DATA.
    forall_list ltac:(cbn [snd];
      forall_list ltac:(
        eexists; eexists;
        split; [vm_compute; reflexivity|];
        split; [vm_compute; discriminate|];
        split; [cbn [map snd List.concat app In]; in_list|];
        split; [reflexivity|];
        split; reflexivity)). }
  split; [cbn [map snd List.concat app]; forall_list ltac:(reflexivity)|].
  split; [eexists; split; vm_compute; reflexivity|].
  split; [vm_compute; reflexivity|].
  split; reflexivity.
Qed.

(** ** Rings *)

Lemma ring_misses_disk (cx cy r r_in r_out y x : Z) :
  0 <= r -> r < r_in ->
  in_ring cx cy r_in r_out y x && in_disk cx cy r y x = false.
Proof.
  intros H0 Hlt. unfold in_ring, in_disk.
  apply Bool.not_true_is_false.
  rewrite !andb_true_iff, !Z.leb_le. intros (((_ & _) & H1) & (_ & H2)).
  nia.
Qed.

(** Painting a ring leaves the disk of its owner as it was. *)
Lemma ring_keeps_disk (c c' : pixels) (cx cy r r_in r_out val : Z) :
  0 <= r -> r < r_in ->
  draw_annulus WIDTH HEIGHT c cx cy r_in r_out val = Ok c' ->
  forall y x, in_disk cx cy r y x = true -> c' y x = c y x.
Proof.
  intros H0 Hlt Hdraw y x Hin.
  destruct (draw_annulus_pixels WIDTH HEIGHT c cx cy r_in r_out val) as (c2 & E & Hpx).
  rewrite E in Hdraw. inversion Hdraw; subst c2.
  rewrite Hpx.
  pose proof (ring_misses_disk cx cy r r_in r_out y x H0 Hlt) as Hm.
  rewrite Hin, andb_true_r in Hm. rewrite Hm, andb_false_r. reflexivity.
Qed.

(** A ring is sound for the list of the bodies drawn: its inner radius is
    below its outer radius, both are at least the radius of its owner plus
    the offset constant of its kind, it is centred on its owner's disk, and
    no pixel lies both in the ring and in that disk. *)
Definition ring_sound (bodies : list body) (g : ring) : Prop :=
  ring_in g < ring_out g /\
  owner_r g + ring_off g <= ring_in g /\
  owner_r g + ring_off g <= ring_out g /\
  MOON_RING_OFF <= ring_off g /\
  0 < owner_r g /\
  (exists b, In b bodies /\ body_name b = ring_owner g /\
             body_cx b = ring_cx g /\ body_cy b = ring_cy g /\
             body_r b = owner_r g) /\
  (forall y x,
     in_ring (ring_cx g) (ring_cy g) (ring_in g) (ring_out g) y x
     && in_disk (ring_cx g) (ring_cy g) (owner_r g) y x = false) /\
  (forall c c',
     draw_annulus WIDTH HEIGHT c (ring_cx g) (ring_cy g) (ring_in g) (ring_out g)
       (ring_val g) = Ok c' ->
     forall y x,
       in_disk (ring_cx g) (ring_cy g) (owner_r g) y x = true -> c' y x = c y x).

Lemma ring_sound_intro (bodies : list body) (g : ring) :
  ring_in g < ring_out g ->
  owner_r g + ring_off g <= ring_in g ->
  MOON_RING_OFF <= ring_off g ->
  0 < owner_r g ->
  (exists b, In b bodies /\ body_name b = ring_owner g /\
             body_cx b = ring_cx g /\ body_cy b = ring_cy g /\
             body_r b = owner_r g) ->
  ring_sound bodies g.
Proof.
  intros H1 H2 H3 H4 H5. unfold MOON_RING_OFF in H3.
  unfold ring_sound, MOON_RING_OFF.
  repeat (split; [first [assumption | lia]|]).
  split.
  - intros y x. apply ring_misses_disk; lia.
  - intros c c' Hdraw. apply (ring_keeps_disk c c' _ _ _ _ _ _) with (3 := Hdraw); lia.
Qed.

(** C6. Each of the 36 rings drawn (two orbit rings for each of the eight
    planets other than Saturn, Saturn's wide ring, one ring for each of the
    19 moons) has its inner radius strictly below its outer radius, both at
    least the final radius of its owner plus the offset constant of its
    kind (24 for a planet, 10 for Saturn, 6 for a moon), is centred on the
    disk of its owner, and shares no pixel with that disk. *)
Theorem rings_clear_of_their_bodies :
  exists rings bodies,
    rings_drawn = Ok rings /\ bodies_drawn = Ok bodies /\
    List.length rings = 36%nat /\
    Forall (ring_sound bodies) rings.
Proof.
  eexists. eexists.
  split; [vm_compute; reflexivity|].
  split; [vm_compute; reflexivity|].
  split; [reflexivity|].
  forall_list ltac:(
    apply ring_sound_intro;
    [ reflexivity | cbn; discriminate | cbn; discriminate | reflexivity
    | eexists; split; [cbn [In]; in_list|]; repeat split; reflexivity ]).
Qed.

(** ** Rasterizer clipping *)



(** The annulus of centre (100, 100) with radii 10 and 15 painted with 500
    on a blank canvas of 200 by 200, at a few pixels. *)
Example annulus_scenario :
  exists c', draw_annulus 200 200 zeros 100 100 10 15 500 = Ok c' /\
    c' 100 110 = 500 /\ c' 100 115 = 500 /\ c' 112 100 = 500 /\
    c' 100 109 = 0 /\ c' 100 116 = 0 /\ c' 100 100 = 0 /\ c' 0 0 = 0.
Proof. eexists. split; [reflexivity|]. repeat split. Qed.

(** A disk above and left of the canvas, and one that straddles its corner. *)
Example disk_outside_scenario :
  exists c', draw_circle 200 200 zeros (-10) (-30) 5 500 = Ok c' /\
    c' 0 0 = 0 /\ c' 199 199 = 0 /\ c' 190 190 = 0.
Proof. eexists. split; [reflexivity|]. repeat split. Qed.

Example disk_corner_scenario :
  exists c', draw_circle 200 200 zeros 0 199 3 500 = Ok c' /\
    c' 199 0 = 500 /\ c' 199 3 = 500 /\ c' 196 0 = 500 /\
    c' 199 4 = 0 /\ c' 197 3 = 0 /\ c' 0 0 = 0.
Proof. eexists. split; [reflexivity|]. repeat split. Qed.

(** ** Compositing of a texture disc *)

(** C8. For a square patch of side [2 r + 1] pasted with its centre at
    [(cx, cy)] on a canvas it meets: the paste raises nothing; a canvas
    pixel under a patch pixel greater than zero receives the patch value,
    whatever it held; a canvas pixel under a zero patch pixel keeps its
    value; and every pixel outside the footprint of the patch keeps its
    value. *)
Theorem paste_disc_composites (width height : Z) (canvas : pixels)
    (cx cy r : Z) (disc : ndarray) :
  0 <= width -> 0 <= height -> 0 <= r ->
  nrows disc = 2 * r + 1 -> ncols disc = 2 * r + 1 ->
  (cx - r < width -> 0 <= cx + r -> cy - r < height -> 0 <= cy + r ->
   exists c', paste_disc width height canvas cx cy disc = Ok c') /\
  (forall c', paste_disc width height canvas cx cy disc = Ok c' ->
   forall y x,
     let v := px disc (y - (cy - r)) (x - (cx - r)) in
     (in_canvas width height y x && in_patch cx cy r y x = true ->
      (0 < v -> c' y x = v) /\ (v = 0 -> c' y x = canvas y x)) /\
     (in_canvas width height y x && in_patch cx cy r y x = false ->
      c' y x = canvas y x)).
Proof.
  intros Hw Hh Hr Hrows Hcols.
  destruct (paste_disc_pixels width height canvas cx cy disc r Hw Hh Hr Hrows Hcols)
    as [Hok Hpx].
  split; [exact Hok|].
  intros c' Hc y x v. rewrite (Hpx c' Hc y x). fold v.
  split.
  - intros ->. cbn [andb]. split.
    + intros Hv. destruct (Z.ltb_spec 0 v); [reflexivity | lia].
    + intros ->. reflexivity.
  - intros ->. reflexivity.
Qed.

Definition patch3 : ndarray :=
  {| nrows := 3; ncols := 3;
     px := fun i j => if (i =? 1) && (j =? 1) then 0 else 10 * i + j + 1 |}.

Lemma paste_disc_composites_witness :
  (exists c', paste_disc 8 8 (fun _ _ => 7) 0 4 patch3 = Ok c') /\
  (forall c', paste_disc 8 8 (fun _ _ => 7) 0 4 patch3 = Ok c' ->
   forall y x,
     let v := px patch3 (y - (4 - 1)) (x - (0 - 1)) in
     (in_canvas 8 8 y x && in_patch 0 4 1 y x = true ->
      (0 < v -> c' y x = v) /\ (v = 0 -> c' y x = 7)) /\
     (in_canvas 8 8 y x && in_patch 0 4 1 y x = false -> c' y x = 7)).
Proof.
  destruct (paste_disc_composites 8 8 (fun _ _ => 7) 0 4 1 patch3) as [H1 H2];
    [lia | lia | lia | reflexivity | reflexivity |].
  split; [apply H1; lia | exact H2].
Defined.

Example paste_scenario :
  exists c', paste_disc 8 8 (fun _ _ => 7) 0 4 patch3 = Ok c' /\
    c' 3 0 = 2 /\ c' 4 0 = 7 /\ c' 5 0 = 22 /\ c' 4 1 = 13 /\
    c' 4 2 = 7 /\ c' 0 0 = 7.
Proof. eexists. split; [reflexivity|]. repeat split. Qed.

(** ** Texture projector *)

Module ProjectorProps.
Import Projector ProjectorFacts.
Local Open Scope R_scope.


(** C10. For a pixel of the disk of a projector of radius [r > 0] and a
    source image of at least one row and one column: the argument of the
    square root is not negative, the longitude and the latitude lie in
    [-PI/2, PI/2], the two indices lie in [0, tw - 1] and [0, th - 1], and
    the read of the source image raises nothing. *)
Theorem sample_read_in_bounds (tex : texture) (r dx dy : Z) :
  (0 < r)%Z -> (dx * dx + dy * dy <= r ^ 2)%Z ->
  (1 <= tex_w tex)%Z -> (1 <= tex_h tex)%Z ->
  exists yy s,
    py_div dy r = Ok yy /\
    sample_of r (tex_w tex) (tex_h tex) dx yy = Ok s /\
    0 <= Rmax 0 (1 - s_xx s * s_xx s - yy * yy) /\
    s_z s = sqrt (Rmax 0 (1 - s_xx s * s_xx s - yy * yy)) /\
    0 <= s_z s /\
    - (PI / 2) <= s_lon s <= PI / 2 /\
    - (PI / 2) <= s_lat s <= PI / 2 /\
    (0 <= s_ui s <= tex_w tex - 1)%Z /\
    (0 <= s_vi s <= tex_h tex - 1)%Z /\
    tex_read tex (s_vi s) (s_ui s) = Ok (tex_at tex (s_vi s) (s_ui s)).
Proof.
  intros Hr Hd Htw Hth.
  destruct (sample_of_in_disk r (tex_w tex) (tex_h tex) dx dy Hr Hd Htw Hth)
    as (yy & s & Hyy & Hs & Eyy & Exx & Ez & Elat & Elon & Eu & Ev & Eui & Evi & Hu & Hv).
  exists yy, s.
  assert (Bu : (0 <= s_ui s <= tex_w tex - 1)%Z)
    by (rewrite Eui; apply int_of_R_bounds; exact Hu).
  assert (Bv : (0 <= s_vi s <= tex_h tex - 1)%Z)
    by (rewrite Evi; apply int_of_R_bounds; exact Hv).
  split; [exact Hyy|]. split; [exact Hs|].
  split; [apply Rmax_l|]. split; [exact Ez|].
  split; [rewrite Ez; apply sqrt_pos|].
  split; [rewrite Elon; apply atan2_range; rewrite Ez; apply sqrt_pos|].
  split; [rewrite Elat; apply asin_bound|].
  split; [exact Bu|]. split; [exact Bv|].
  unfold tex_read. rewrite (index_in_range _ _ Bv), (index_in_range _ _ Bu).
  reflexivity.
Qed.

Definition tex21 : texture :=
  {| tex_h := 1; tex_w := 2; tex_at := fun _ j => if (j =? 0)%Z then 0 else 1 |}.

Lemma sample_read_in_bounds_witness :
  exists yy s,
    py_div 0 1 = Ok yy /\
    sample_of 1 (tex_w tex21) (tex_h tex21) 1 yy = Ok s /\
    0 <= Rmax 0 (1 - s_xx s * s_xx s - yy * yy) /\
    s_z s = sqrt (Rmax 0 (1 - s_xx s * s_xx s - yy * yy)) /\
    0 <= s_z s /\
    - (PI / 2) <= s_lon s <= PI / 2 /\
    - (PI / 2) <= s_lat s <= PI / 2 /\
    (0 <= s_ui s <= tex_w tex21 - 1)%Z /\
    (0 <= s_vi s <= tex_h tex21 - 1)%Z /\
    tex_read tex21 (s_vi s) (s_ui s) = Ok (tex_at tex21 (s_vi s) (s_ui s)).
Proof.
  apply (sample_read_in_bounds tex21 1 1 0); simpl; lia.
Defined.

(** With radius 0 the first division of the outer loop raises. *)
Lemma radius_zero_raises (tex : texture) :
  map_texture_to_disc tex 0 = Raise ZeroDivisionError.
Proof. reflexivity. Qed.





End ProjectorProps.

(** ** Belt populator *)

Module BeltProps.
Import Belt BeltFacts.

(** The asteroids a run of the belt has recorded. *)
Definition recorded (o : result (outcome state)) : result (outcome (list asteroid)) :=
  match o with
  | Ok (Finished st) => Ok (Finished (asteroids st))
  | Ok Exhausted => Ok Exhausted
  | Raise e => Raise e
  end.

(** A stream of draws for the examples. *)
Definition rng1 (n : nat) : Z := Z.of_nat n * 7919.

Lemma belt_bounds_eval : belt_bounds = Ok (5531, 7231).
Proof. vm_compute. reflexivity. Qed.

(** The clamps keep each bound on the canvas, whatever the layout. *)
Lemma belt_bounds_on_canvas (cx_mars ho_mars cx_jupiter lo_jupiter : Z) :
  0 <= fst (belt_bounds_of cx_mars ho_mars cx_jupiter lo_jupiter) /\
  snd (belt_bounds_of cx_mars ho_mars cx_jupiter lo_jupiter) <= WIDTH - 1.
Proof. unfold belt_bounds_of, WIDTH. cbn [fst snd]. lia. Qed.

(** The scaled radius of a dwarf body, before the floor of 30. *)
Definition scaled_px (r_km : Z) : result Z :=
  s <- scale ;; int_round (PrimFloat.mul (float_of_Z r_km) s).

Lemma core_r_is_floor (r_km : Z) :
  core_r_of r_km = (v <- scaled_px r_km ;; Ok (Z.max v 30)).
Proof. unfold core_r_of, scaled_px. destruct scale; reflexivity. Qed.

(** C9. The four dwarf bodies scale to 11, 6, 6 and 5 pixels, below the
    floor of 30, so each has the radius 30, not tripled; and whatever the
    generator draws on a band with [belt_left <= belt_right], every body
    the dwarf tier records has the radius 30 and the ring extent 40. *)
Theorem dwarf_radii_are_30 (rng : nat -> Z) (belt_left belt_right : Z)
    (fuel : nat) (c : pixels) :
  belt_left <= belt_right -> (Z.to_nat 8000 <= fuel)%nat ->
  map (fun def => scaled_px (snd def)) dwarf_defs = [Ok 11; Ok 6; Ok 6; Ok 5] /\
  Forall (fun def => core_r_of (snd def) = Ok 30) dwarf_defs /\
  exists st',
    place_dwarfs rng belt_left belt_right fuel (start c) dwarf_defs
      = Ok (Finished st') /\
    Forall (fun a => snd a = 30) (asteroids st') /\
    Forall (fun a => snd a = 30 + MOON_RING_OFF + MOON_RING_THICK)
           (dwarf_ring_extents st') /\
    (List.length (asteroids st') <= 4)%nat.
Proof.
  intros Hband Hfuel.
  split; [vm_compute; reflexivity|].
  split; [exact core_r_eval|].
  destruct (place_dwarfs_ok rng belt_left belt_right Hband fuel dwarf_defs Hfuel
              (incl_refl _) (start c)) as (st' & l & E & (Ha & He & Hl & Hn) & _).
  exists st'. split; [exact E|].
  cbn [start asteroids dwarf_ring_extents app] in Ha, He.
  rewrite Ha, He. split; [exact Hl|]. split.
  - apply Forall_map. apply Forall_impl with (2 := Hl).
    intros [[ax ay] r]. cbn [snd inflate]. intros ->. reflexivity.
  - exact Hn.
Qed.

Lemma dwarf_radii_are_30_witness :
  map (fun def => scaled_px (snd def)) dwarf_defs = [Ok 11; Ok 6; Ok 6; Ok 5] /\
  Forall (fun def => core_r_of (snd def) = Ok 30) dwarf_defs /\
  exists st',
    place_dwarfs rng1 5531 7231 (Z.to_nat 8000) (start zeros) dwarf_defs
      = Ok (Finished st') /\
    Forall (fun a => snd a = 30) (asteroids st') /\
    Forall (fun a => snd a = 30 + MOON_RING_OFF + MOON_RING_THICK)
           (dwarf_ring_extents st') /\
    (List.length (asteroids st') <= 4)%nat.
Proof.
  apply (dwarf_radii_are_30 rng1 5531 7231 (Z.to_nat 8000) zeros); lia.
Defined.

(** C2, as stated, fails twice.  The clamps do not order the two bounds: a
    layout with Mars right of Jupiter gives an inverted band, on which the
    first draw raises.  And on a band of width 0 the dwarf bodies are
    placed, not skipped. *)
Lemma degenerate_bands :
  belt_bounds_of 9000 146 5000 480 = (9696, 5070) /\
  place_dwarfs rng1 9696 5070 (Z.to_nat 8000) (start zeros) dwarf_defs
    = Raise ValueError /\
  recorded (place_dwarfs rng1 100 100 (Z.to_nat 8000) (start zeros) dwarf_defs)
    = Ok (Finished [(100, 7919, 30); (100, 7373, 30); (100, 6827, 30); (100, 6281, 30)]).
Proof.
  split; [reflexivity|]. split; vm_compute; reflexivity.
Qed.

(** C2, amended. With the constants of the script the band is
    [5531, 7231], so [belt_left <= belt_right]; the clamps keep
    [belt_left >= 0] and [belt_right <= WIDTH - 1] for every layout.  On
    every band with [belt_left <= belt_right], of width 0 too, and for
    every stream of draws, the dwarf tier ends without raising once each
    body has a budget of 8000 iterations, and it places at least the first
    dwarf body, inside the band. *)
Theorem dwarf_tier_ends (rng : nat -> Z) (belt_left belt_right : Z)
    (fuel : nat) (c : pixels) :
  belt_left <= belt_right -> (Z.to_nat 8000 <= fuel)%nat ->
  belt_bounds = Ok (5531, 7231) /\
  (forall cx_mars ho_mars cx_jupiter lo_jupiter,
     0 <= fst (belt_bounds_of cx_mars ho_mars cx_jupiter lo_jupiter) /\
     snd (belt_bounds_of cx_mars ho_mars cx_jupiter lo_jupiter) <= WIDTH - 1) /\
  exists st' ax ay rest,
    place_dwarfs rng belt_left belt_right fuel (start c) dwarf_defs
      = Ok (Finished st') /\
    asteroids st' = (ax, ay, 30) :: rest /\
    belt_left <= ax <= belt_right /\ 0 <= ay <= HEIGHT - 1.
Proof.
  intros Hband Hfuel.
  split; [exact belt_bounds_eval|].
  split; [exact belt_bounds_on_canvas|].
  unfold dwarf_defs.
  change (place_dwarfs rng belt_left belt_right fuel (start c)
            (("Ceres", 473) :: [("Vesta", 262); ("Pallas", 272); ("Hygiea", 215)]))
    with (o <- place_dwarf rng belt_left belt_right fuel (start c) ("Ceres", 473) ;;
          match o with
          | Finished (st', _) =>
              place_dwarfs rng belt_left belt_right fuel st'
                [("Vesta", 262); ("Pallas", 272); ("Hygiea", 215)]
          | Exhausted => Ok Exhausted
          end).
  destruct (place_dwarf_ok rng belt_left belt_right Hband fuel (start c) ("Ceres", 473)
              Hfuel) as (st1 & placed & -> & Htried); [left; reflexivity|].
  cbn [bind].
  destruct (place_dwarfs_ok rng belt_left belt_right Hband fuel
              [("Vesta", 262); ("Pallas", 272); ("Hygiea", 215)] Hfuel) with (st := st1)
    as (st' & l & -> & (Ha & _) & _).
  { intros d Hd. right. exact Hd. }
  destruct Htried as [(_ & ax & ay & Hax & Hay & _ & Ha1 & _)|(_ & _ & _ & Hne)].
  - exists st', ax, ay, l. split; [reflexivity|].
    rewrite Ha, Ha1. cbn [start asteroids app]. auto.
  - contradiction Hne. reflexivity.
Qed.

Lemma dwarf_tier_ends_witness :
  belt_bounds = Ok (5531, 7231) /\
  (forall cx_mars ho_mars cx_jupiter lo_jupiter,
     0 <= fst (belt_bounds_of cx_mars ho_mars cx_jupiter lo_jupiter) /\
     snd (belt_bounds_of cx_mars ho_mars cx_jupiter lo_jupiter) <= WIDTH - 1) /\
  exists st' ax ay rest,
    place_dwarfs rng1 100 100 (Z.to_nat 8000) (start zeros) dwarf_defs
      = Ok (Finished st') /\
    asteroids st' = (ax, ay, 30) :: rest /\
    100 <= ax <= 100 /\ 0 <= ay <= HEIGHT - 1.
Proof.
  apply (dwarf_tier_ends rng1 100 100 (Z.to_nat 8000) zeros); lia.
Defined.

(** A belt with one dwarf body at (6000, 4000), and a stream whose next
    three draws give the candidate of radius 8 at (6000, 4041). *)
Definition one_dwarf : state :=
  {| canvas := zeros; draws := O;
     asteroids := [(6000, 4000, 30)];
     dwarf_ring_extents := [(6000, 4000, 40)] |}.

Definition rng_near (n : nat) : Z :=
  match n with
  | O => 0
  | 1%nat => 469
  | _ => 4041
  end.

(** C1. The candidate clears the disk of the dwarf body (41 >= 8 + 30 + 2)
    and lies within its ring footprint (41 < 8 + 40 + 2): the filler
    iteration does not reject it, it raises [NameError] on the name [y];
    and the whole belt, on the band of the script, raises the same. *)
Theorem filler_tier_raises_name_error :
  filler_clear 8 6000 4041 (asteroids one_dwarf) = true /\
  (6000 - 6000) ^ 2 + (4041 - 4000) ^ 2 < (8 + 40 + 2) ^ 2 /\
  filler_try rng_near 5531 7231 one_dwarf = Raise (NameError "y") /\
  populate rng1 5531 7231 (Z.to_nat 8000) (start zeros) = Raise (NameError "y").
Proof.
  split; [reflexivity|]. split; [reflexivity|].
  split; vm_compute; reflexivity.
Qed.

End BeltProps.

(** ** Moon placement *)


(** The outer radius of the outermost ring drawn around a body. *)
Definition outer_radius_of (rings : list ring) (owner : string) : Z :=
  fold_left Z.max
    (map ring_out (filter (fun g => String.eqb (ring_owner g) owner) rings)) 0.

(** The largest semi-major axis of a list of moons. *)
Definition largest_a (moons : list moon) : Z :=
  fold_left Z.max (map m_a_km moons) 0.

(** The offset of the design, to the nearest pixel: the outer radius [B],
    plus the pad, plus the fraction [a / max_a] of [B]. *)
Definition offset_px (B a max_a : Z) : Z :=
  round_half_even ((B + 60) * max_a + a * B) max_a.

(** One moon, at index [mp_idx] of its planet's list. *)
Definition moon_placed (cxp cyp B max_a : Z) (p : moon_place) : Prop :=
  let off := offset_px B (mp_a_km p) max_a in
  int_round (mp_offset p) = Ok off /\
  mp_mx p = cxp /\
  mp_my p = (if Z.even (mp_idx p) then cyp - off else cyp + off) /\
  B < off - (mp_mr p + MOON_RING_OFF + MOON_RING_THICK).

(** The moons of one planet, as the loop has placed them. *)
Definition moons_placed (rings : list ring) (cx cy : dict Z)
    (planet : string) (moons : list moon) (ps : list moon_place) : Prop :=
  let B := outer_radius_of rings planet in
  let max_a := largest_a moons in
  exists cxp cyp,
    getitem cx planet = Ok cxp /\ getitem cy planet = Ok cyp /\
    List.length ps = List.length moons /\
    Forall (fun m => exists p, In p ps /\ mp_name p = m_name m /\ mp_a_km p = m_a_km m)
           moons /\
    StronglySorted Z.lt (map mp_a_km ps) /\
    map mp_idx ps = map Z.of_nat (seq 0 (List.length ps)) /\
    Forall (moon_placed cxp cyp B max_a) ps /\
    StronglySorted Z.lt (map (fun p => offset_px B (mp_a_km p) max_a) ps).

Ltac sorted_list :=
  repeat (apply SSorted_cons; [|forall_list ltac:(reflexivity)]);
  apply SSorted_nil.

Ltac moons_of_planet :=
  eexists; eexists;
  split; [reflexivity|];
  split; [reflexivity|];
  split; [reflexivity|];
  split; [forall_list ltac:(eexists; split; [cbn [In]; in_list|]; split; reflexivity)|];
  split; [cbn [map]; sorted_list|];
  split; [reflexivity|];
  split; [forall_list ltac:(
            split; [vm_compute; reflexivity|];
            split; [reflexivity|];
            split; [vm_compute; reflexivity|];
            vm_compute; reflexivity)|];
  vm_compute; sorted_list.

(** C5. For each of the seven planets with moons, the moons are placed in
    ascending order of semi-major axis, each once; the moon of index [i]
    has the abscissa of its planet's centre and lies above the centre for
    an even [i] and below it for an odd [i], at the offset (to the nearest
    pixel) [B + 60 + (a / max_a) * B], where [B] is the outer radius of the
    planet's outermost ring and [max_a] the largest semi-major axis of the
    list; the moon's disk and ring lie beyond [B]; and the offsets increase
    strictly along the list. *)
Theorem moons_placed_in_order :
  exists mp rings cx cy,
    moon_places = Ok mp /\ rings_drawn = Ok rings /\
    centre_x = Ok cx /\ centre_y = Ok cy /\
    map fst mp = keys MOON_DATA /\
    Forall2 (fun e ps => moons_placed rings cx cy (fst e) (snd e) (snd ps))
            MOON_DATA mp.
Proof.
  eexists. eexists. eexists. eexists.
  split; [vm_compute; reflexivity|].
  split; [vm_compute; reflexivity|].
  split; [vm_compute; reflexivity|].
  split; [vm_compute; reflexivity|].
  split; [reflexivity|].
  unfold MOON_DATA.
  repeat (apply Forall2_cons; [cbn [fst snd]; moons_of_planet|]).
  apply Forall2_nil.
Qed.

(** ** Further properties *)


(** X2. The annulus of centre (100, 100) and radii 10 and 15 on a blank canvas
    of 200 by 200: exactly the pixels at a distance in [10, 15] hold 500. *)
Theorem annulus_scenario_exact :
  exists c',
    draw_annulus 200 200 zeros 100 100 10 15 500 = Ok c' /\
    forall y x,
      c' y x =
      if (0 <=? x) && (x <? 200) && (0 <=? y) && (y <? 200)
         && (10 ^ 2 <=? (x - 100) ^ 2 + (y - 100) ^ 2)
         && ((x - 100) ^ 2 + (y - 100) ^ 2 <=? 15 ^ 2)
      then 500 else 0.
Proof.
  destruct (draw_annulus_pixels 200 200 zeros 100 100 10 15 500) as (c' & E & Hpx).
  exists c'. split; [exact E|]. intros y x. rewrite Hpx.
  unfold in_canvas, in_ring, zeros. cbn [Z.leb andb].
  same_test. rewrite !andb_true_iff. tauto.
Qed.

Module BeltSeparation.
Import Belt BeltFacts.

(** Two footprints keep the margin of 2 pixels. *)
Definition apart (a b : asteroid) : Prop :=
  let '(ax, ay, aR) := a in
  let '(bx, b_y, bR) := b in
  (aR + bR + 2) ^ 2 <= (ax - bx) ^ 2 + (ay - b_y) ^ 2.

Lemma dwarf_clear_apart (core_r ax ay : Z) (extents : list asteroid) :
  dwarf_clear core_r ax ay extents = true ->
  Forall (fun e => apart e (ax, ay, core_r + MOON_RING_OFF + MOON_RING_THICK)) extents.
Proof.
  unfold dwarf_clear. rewrite forallb_forall. intros H.
  apply Forall_forall. intros [[ex ey] eR] Hin.
  specialize (H _ Hin). cbn beta iota in H.
  apply negb_true_iff, Z.ltb_ge in H. unfold apart.
  replace (eR + (core_r + MOON_RING_OFF + MOON_RING_THICK) + 2)
    with (core_r + MOON_RING_OFF + MOON_RING_THICK + eR + 2) by lia.
  replace ((ex - ax) ^ 2 + (ey - ay) ^ 2) with ((ax - ex) ^ 2 + (ay - ey) ^ 2) by lia.
  exact H.
Qed.

Lemma pairs_snoc (l : list asteroid) (a : asteroid) :
  ForallOrdPairs apart l -> Forall (fun e => apart e a) l ->
  ForallOrdPairs apart (l ++ [a]).
Proof.
  induction 1 as [|e l He Hl IH]; intros Ha.
  - cbn [app]. constructor; constructor.
  - inversion Ha as [|? ? Hea Hla]; subst. cbn [app]. constructor.
    + apply Forall_app. split; [exact He | constructor; [exact Hea | constructor]].
    + apply IH. exact Hla.
Qed.

Section Separation.

Variable rng : nat -> Z.
Variables belt_left belt_right : Z.
Hypothesis band : belt_left <= belt_right.

Lemma tried_keeps_apart (core_r : Z) (st st' : state) (placed placed' : bool) :
  tried belt_left belt_right core_r st placed st' placed' ->
  ForallOrdPairs apart (dwarf_ring_extents st) ->
  ForallOrdPairs apart (dwarf_ring_extents st').
Proof.
  intros [(_ & ax & ay & _ & _ & Hclear & _ & He)|(_ & _ & He & _)] Hp;
    rewrite He; [|exact Hp].
  apply pairs_snoc; [exact Hp | apply dwarf_clear_apart; exact Hclear].
Qed.

Lemma place_dwarfs_apart (fuel : nat) (defs : list (string * Z)) :
  (Z.to_nat 8000 <= fuel)%nat -> incl defs dwarf_defs ->
  forall st, ForallOrdPairs apart (dwarf_ring_extents st) ->
    exists st',
      place_dwarfs rng belt_left belt_right fuel st defs = Ok (Finished st') /\
      ForallOrdPairs apart (dwarf_ring_extents st').
Proof.
  intros Hfuel. induction defs as [|def defs IH]; intros Hincl st Hp.
  - exists st. split; [reflexivity | exact Hp].
  - cbn [place_dwarfs].
    destruct (place_dwarf_ok rng belt_left belt_right band fuel st def Hfuel
                (Hincl def (or_introl eq_refl))) as (st1 & placed & -> & Htried).
    cbn [bind].
    apply (IH (fun d H => Hincl d (or_intror H)) st1).
    apply (tried_keeps_apart 30 st st1 false placed Htried Hp).
Qed.

(** X3. The ring footprints of the dwarf bodies placed are pairwise apart: the
    distance of two centres is at least the sum of the two ring extents
    plus 2. *)
Theorem dwarf_footprints_apart (fuel : nat) (c : pixels) :
  (Z.to_nat 8000 <= fuel)%nat ->
  exists st',
    place_dwarfs rng belt_left belt_right fuel (start c) dwarf_defs
      = Ok (Finished st') /\
    ForallOrdPairs apart (dwarf_ring_extents st').
Proof.
  intros Hfuel.
  apply place_dwarfs_apart; [exact Hfuel | apply incl_refl | constructor].
Qed.

End Separation.

Lemma dwarf_footprints_apart_witness :
  exists st',
    place_dwarfs BeltProps.rng1 5531 7231 (Z.to_nat 8000) (start zeros) dwarf_defs
      = Ok (Finished st') /\
    ForallOrdPairs apart (dwarf_ring_extents st').
Proof.
  apply (dwarf_footprints_apart BeltProps.rng1 5531 7231); lia.
Defined.

End BeltSeparation.

Module ProjectorUniform.
Import Projector ProjectorFacts.
Local Open Scope R_scope.

(** X4. A source image of one intensity [t] gives a patch whose pixels are
    [int(t * 65535)] inside the disk and 0 outside. *)
Theorem uniform_texture_patch (tex : texture) (r : Z) (t : R) :
  (0 < r)%Z -> (1 <= tex_w tex)%Z -> (1 <= tex_h tex)%Z ->
  (forall i j, tex_at tex i j = t) ->
  exists disc,
    map_texture_to_disc tex r = Ok disc /\
    forall dx dy, (- r <= dx <= r)%Z -> (- r <= dy <= r)%Z ->
      px disc (dy + r)%Z (dx + r)%Z =
      if (dx * dx + dy * dy <=? r ^ 2)%Z then int_of_R (t * 65535) else 0%Z.
Proof.
  intros Hr Htw Hth Hu.
  destruct (map_texture_to_disc_cells tex r Hr Htw Hth) as (disc & E & _ & _ & Hpx).
  exists disc. split; [exact E|].
  intros dx dy Hdx Hdy. rewrite (Hpx dx dy Hdx Hdy).
  unfold texel. rewrite Hu. reflexivity.
Qed.

Definition grey : texture :=
  {| tex_h := 2; tex_w := 4; tex_at := fun _ _ => / 2 |}.

Lemma uniform_texture_patch_witness :
  exists disc,
    map_texture_to_disc grey 2 = Ok disc /\
    forall dx dy, (- 2 <= dx <= 2)%Z -> (- 2 <= dy <= 2)%Z ->
      px disc (dy + 2)%Z (dx + 2)%Z =
      if (dx * dx + dy * dy <=? 2 ^ 2)%Z then int_of_R (/ 2 * 65535) else 0%Z.
Proof.
  apply (uniform_texture_patch grey 2 (/ 2)); first [reflexivity | simpl; lia].
Defined.

End ProjectorUniform.

(** ** The belt: outcomes, degenerate bands, invariants *)

Module BeltMore.
Import Belt BeltFacts BeltSeparation.

Section More.

Variable rng : nat -> Z.
Variables belt_left belt_right : Z.

(** *** An inverted band *)

Lemma randint_empty (a b : Z) (n : nat) :
  b < a -> randint rng a b n = Raise ValueError.
Proof. intros H. unfold randint. destruct (Z.ltb_spec b a); [reflexivity | lia]. Qed.

(** X6. On a band with [belt_right < belt_left] the first draw of the first
    dwarf body raises [ValueError], so does the whole belt. *)
Theorem inverted_band_raises (fuel : nat) (c : pixels) :
  belt_right < belt_left -> (0 < fuel)%nat ->
  place_dwarfs rng belt_left belt_right fuel (start c) dwarf_defs = Raise ValueError /\
  populate rng belt_left belt_right fuel (start c) = Raise ValueError.
Proof.
  intros Hinv Hfuel.
  assert (E : place_dwarfs rng belt_left belt_right fuel (start c) dwarf_defs
              = Raise ValueError).
  { unfold dwarf_defs.
    change (place_dwarfs rng belt_left belt_right fuel (start c)
              (("Ceres", 473) :: [("Vesta", 262); ("Pallas", 272); ("Hygiea", 215)]))
      with (o <- place_dwarf rng belt_left belt_right fuel (start c) ("Ceres", 473) ;;
            match o with
            | Finished (st', _) =>
                place_dwarfs rng belt_left belt_right fuel st'
                  [("Vesta", 262); ("Pallas", 272); ("Hygiea", 215)]
            | Exhausted => Ok Exhausted
            end).
    unfold place_dwarf.
    rewrite (core_r_of_dwarf ("Ceres", 473)) by (left; reflexivity).
    cbn [bind].
    destruct fuel as [|fuel]; [lia|].
    cbn [while dwarf_cond negb andb Z.ltb Z.compare].
    unfold dwarf_try. cbn [start draws].
    rewrite (randint_empty _ _ _ Hinv). reflexivity. }
  split; [exact E|]. unfold populate. rewrite E. reflexivity.
Qed.

Hypothesis band : belt_left <= belt_right.

(** *** Invariants of the dwarf tier *)

Lemma place_dwarfs_invariant (P : state -> Prop) (fuel : nat)
    (defs : list (string * Z)) :
  (forall st st' placed',
     tried belt_left belt_right 30 st false st' placed' -> P st -> P st') ->
  (Z.to_nat 8000 <= fuel)%nat -> incl defs dwarf_defs ->
  forall st, P st ->
    exists st',
      place_dwarfs rng belt_left belt_right fuel st defs = Ok (Finished st') /\ P st'.
Proof.
  intros Hstep Hfuel. induction defs as [|def defs IH]; intros Hincl st Hp.
  - exists st. split; [reflexivity | exact Hp].
  - cbn [place_dwarfs].
    destruct (place_dwarf_ok rng belt_left belt_right band fuel st def Hfuel
                (Hincl def (or_introl eq_refl))) as (st1 & placed & -> & Htried).
    cbn [bind].
    apply (IH (fun d H => Hincl d (or_intror H)) st1).
    apply (Hstep st st1 placed Htried Hp).
Qed.

(** A centre inside the band and on a row of the canvas. *)
Definition in_band (a : asteroid) : Prop :=
  let '(ax, ay, _) := a in belt_left <= ax <= belt_right /\ 0 <= ay <= HEIGHT - 1.

(** The two lists of the dwarf tier go together: the ring extents are the
    asteroids with their radius inflated by the ring, and every centre lies
    inside the band. *)
Definition aligned (st : state) : Prop :=
  dwarf_ring_extents st = map inflate (asteroids st) /\
  Forall in_band (asteroids st).

Lemma tried_keeps_aligned (st st' : state) (placed' : bool) :
  tried belt_left belt_right 30 st false st' placed' -> aligned st -> aligned st'.
Proof.
  intros [(_ & ax & ay & Hax & Hay & _ & Ha & He)|(_ & Ha & He & _)] [H1 H2];
    unfold aligned; rewrite Ha, He.
  - split.
    + rewrite H1, map_app. reflexivity.
    + apply Forall_app. split; [exact H2|].
      constructor; [split; assumption | constructor].
  - split; assumption.
Qed.

(** X7. Whatever is drawn, the dwarf tier ends with the ring extents equal to
    the ring-inflated asteroids, and with every centre it has recorded
    inside the band and on a row of the canvas. *)
Theorem dwarf_tier_aligned (fuel : nat) (c : pixels) :
  (Z.to_nat 8000 <= fuel)%nat ->
  exists st',
    place_dwarfs rng belt_left belt_right fuel (start c) dwarf_defs
      = Ok (Finished st') /\
    dwarf_ring_extents st' = map inflate (asteroids st') /\
    Forall in_band (asteroids st').
Proof.
  intros Hfuel.
  apply (place_dwarfs_invariant aligned fuel dwarf_defs tried_keeps_aligned Hfuel
           (incl_refl _) (start c)).
  split; [reflexivity | constructor].
Qed.

(** *** The outcome of the whole belt *)

Lemma filler_try_outcome (st : state) :
  dwarf_ring_extents st <> [] ->
  filler_try rng belt_left belt_right st = Raise (NameError "y") \/
  exists st',
    filler_try rng belt_left belt_right st = Ok st' /\
    asteroids st' = asteroids st /\ dwarf_ring_extents st' = dwarf_ring_extents st.
Proof.
  intros Hne. unfold filler_try.
  destruct (randint_ok rng 8 15 (draws st)) as (r & -> & _); [lia|].
  cbn [bind].
  destruct (randint_ok rng belt_left belt_right (S (draws st)) band) as (ax & -> & _).
  cbn [bind].
  destruct (randint_ok rng 0 (HEIGHT - 1) (S (S (draws st)))) as (ay & -> & _);
    [unfold HEIGHT; lia|].
  cbn [bind].
  destruct (filler_clear r ax ay (asteroids st)).
  - left. rewrite (footprint_clear_raises r ax ay _ Hne). reflexivity.
  - right. cbn [bind]. eexists. split; [reflexivity|].
    cbn [asteroids dwarf_ring_extents]. auto.
Qed.

Lemma filler_loop_outcome (fuel : nat) :
  forall st,
    dwarf_ring_extents st <> [] ->
    (List.length (asteroids st) < 200)%nat ->
    while fuel filler_cond (filler_try rng belt_left belt_right) st
      = Raise (NameError "y") \/
    while fuel filler_cond (filler_try rng belt_left belt_right) st = Ok Exhausted.
Proof.
  induction fuel as [|fuel IH]; intros st Hne Hlen;
    cbn [while]; unfold filler_cond;
    destruct (Z.ltb_spec (Z.of_nat (List.length (asteroids st))) 200); try lia.
  - right. reflexivity.
  - destruct (filler_try_outcome st Hne) as [->|(st1 & -> & Ha & He)].
    + left. reflexivity.
    + cbn [bind]. apply IH; [rewrite He; exact Hne | rewrite Ha; exact Hlen].
Qed.

(** X5. On every band with [belt_left <= belt_right] and for every stream of
    draws, the belt has two outcomes only: the [NameError] on [y], at the
    first filler candidate that clears the asteroids placed, or a filler
    loop still running when the budget is spent.  It never ends with 200
    asteroids. *)
Theorem belt_outcomes (fuel : nat) (c : pixels) :
  (Z.to_nat 8000 <= fuel)%nat ->
  populate rng belt_left belt_right fuel (start c) = Raise (NameError "y") \/
  populate rng belt_left belt_right fuel (start c) = Ok Exhausted.
Proof.
  intros Hfuel. unfold populate.
  destruct (place_dwarfs_ok rng belt_left belt_right band fuel dwarf_defs Hfuel
              (incl_refl _) (start c)) as (st1 & l & -> & (Ha & He & Hl & Hn) & Hl').
  cbn [bind].
  assert (Hne : l <> []) by (apply Hl'; [reflexivity | discriminate]).
  apply filler_loop_outcome.
  - rewrite He. cbn [start dwarf_ring_extents app].
    destruct l; [contradiction Hne; reflexivity | discriminate].
  - rewrite Ha. cbn [start asteroids app]. cbn [dwarf_defs List.length] in Hn. lia.
Qed.

(** *** The filler tier on a belt without dwarf bodies *)





End More.

Lemma inverted_band_raises_witness :
  place_dwarfs BeltProps.rng1 9696 5070 1 (start zeros) dwarf_defs = Raise ValueError /\
  populate BeltProps.rng1 9696 5070 1 (start zeros) = Raise ValueError.
Proof.
  apply (inverted_band_raises BeltProps.rng1 9696 5070 1 zeros); lia.
Defined.

Lemma dwarf_tier_aligned_witness :
  exists st',
    place_dwarfs BeltProps.rng1 5531 7231 (Z.to_nat 8000) (start zeros) dwarf_defs
      = Ok (Finished st') /\
    dwarf_ring_extents st' = map inflate (asteroids st') /\
    Forall (in_band 5531 7231) (asteroids st').
Proof.
  apply (dwarf_tier_aligned BeltProps.rng1 5531 7231); lia.
Defined.

Lemma belt_outcomes_witness :
  populate BeltProps.rng1 5531 7231 (Z.to_nat 8000) (start zeros)
    = Raise (NameError "y") \/
  populate BeltProps.rng1 5531 7231 (Z.to_nat 8000) (start zeros) = Ok Exhausted.
Proof.
  apply (belt_outcomes BeltProps.rng1 5531 7231); lia.
Defined.



End BeltMore.

(** ** Pasting near the edges of the canvas *)

(** The only position of a patch that the two slices of [paste_disc] do
    not reconcile, on one axis: the patch begins beyond the end of the
    canvas axis by less than its own side. *)
Lemma paste_axis_ok_iff (n c r : Z) :
  0 <= n -> 0 <= r ->
  let d := 2 * r + 1 in
  let s0 := Z.max 0 (- (c - r)) in
  let s1 := d - Z.max 0 (c + r + 1 - n) in
  let v0 := Z.max (c - r) 0 in
  let v1 := Z.min (c + r + 1) n in
  bool_axis_ok (snd (slice d s0 s1)) (snd (slice n v0 v1)) = false <->
  n < c - r < n + d.
Proof.
  intros Hn Hr. unfold bool_axis_ok, slice, slice_bound; cbn [fst snd].
  split_bools; cbn [orb]; split; intro; first [lia | discriminate | reflexivity].
Qed.

Section PasteEdges.

Variables width height : Z.
Hypothesis width_nonneg : 0 <= width.
Hypothesis height_nonneg : 0 <= height.

(** X9. [paste_disc] raises exactly when the patch begins below the last row,
    or right of the last column, by less than its side; everywhere else,
    above and left of the canvas too, it succeeds. *)
Theorem paste_disc_raises_iff (canvas : pixels) (cx cy r : Z) (disc : ndarray) :
  0 <= r -> nrows disc = 2 * r + 1 -> ncols disc = 2 * r + 1 ->
  let beyond :=
    height < cy - r < height + (2 * r + 1) \/ width < cx - r < width + (2 * r + 1) in
  (beyond -> paste_disc width height canvas cx cy disc = Raise IndexError) /\
  (~ beyond -> exists c', paste_disc width height canvas cx cy disc = Ok c').
Proof.
  intros Hr Hrows Hcols beyond. subst beyond.
  pose proof (paste_axis_ok_iff height cy r height_nonneg Hr) as Ay.
  pose proof (paste_axis_ok_iff width cx r width_nonneg Hr) as Ax.
  cbv zeta in Ay, Ax.
  unfold paste_disc. rewrite Hrows, Hcols.
  replace ((2 * r + 1 - 1) / 2) with r by (rewrite Z.add_simpl_r, Z.mul_comm, Z.div_mul; lia).
  destruct (slice (2 * r + 1) (Z.max 0 (- (cy - r))) _) as [sya sh].
  destruct (slice (2 * r + 1) (Z.max 0 (- (cx - r))) _) as [sxa sw].
  destruct (slice height _ _) as [ya vh].
  destruct (slice width _ _) as [xa vw].
  cbn [fst snd] in Ay, Ax.
  unfold assign_masked.
  destruct (bool_axis_ok sh vh) eqn:Ey; destruct (bool_axis_ok sw vw) eqn:Ex;
    cbn [andb]; split; intros H;
    first [ reflexivity
          | eexists; reflexivity
          | exfalso; destruct H as [H|H];
            [apply Ay in H; discriminate H | apply Ax in H; discriminate H]
          | exfalso; apply H; first [left; apply Ay; reflexivity
                                    | right; apply Ax; reflexivity] ].
Qed.

End PasteEdges.

Definition patch5 : ndarray := {| nrows := 5; ncols := 5; px := fun _ _ => 9 |}.

Lemma paste_disc_raises_iff_witness :
  let beyond := 8 < 11 - 2 < 8 + (2 * 2 + 1) \/ 8 < 3 - 2 < 8 + (2 * 2 + 1) in
  (beyond -> paste_disc 8 8 zeros 3 11 patch5 = Raise IndexError) /\
  (~ beyond -> exists c', paste_disc 8 8 zeros 3 11 patch5 = Ok c').
Proof.
  apply (paste_disc_raises_iff 8 8); first [lia | reflexivity].
Defined.

(** A patch just below the canvas raises; the patches that touch the last
    row, that lie far below, or that lie above the canvas, do not. *)
Example paste_edges_scenario :
  paste_disc 8 8 zeros 3 11 patch5 = Raise IndexError /\
  (exists c', paste_disc 8 8 zeros 3 9 patch5 = Ok c' /\ c' 7 3 = 9 /\ c' 6 3 = 0) /\
  (exists c', paste_disc 8 8 zeros 3 10 patch5 = Ok c' /\ c' 7 3 = 0) /\
  (exists c', paste_disc 8 8 zeros 3 15 patch5 = Ok c' /\ c' 7 3 = 0) /\
  (exists c', paste_disc 8 8 zeros 3 (-9) patch5 = Ok c' /\ c' 0 3 = 0).
Proof.
  split; [reflexivity|].
  repeat split; eexists; (split; [reflexivity|]); repeat split.
Qed.

(** ** The projector: which texels a patch shows *)

Module ProjectorMore.
Import Projector ProjectorFacts.
Local Open Scope R_scope.

(** *** Truncation and integer division *)

Lemma int_of_R_mono (x y : R) :
  0 <= x -> x <= y -> (int_of_R x <= int_of_R y)%Z.
Proof.
  intros H0 Hxy.
  pose proof (int_of_R_floor x H0) as [Hx _].
  pose proof (int_of_R_floor y (Rle_trans _ _ _ H0 Hxy)) as [_ Hy].
  apply Z.lt_succ_r, lt_IZR. rewrite succ_IZR. lra.
Qed.

Lemma int_of_R_IZR (n : Z) : (0 <= n)%Z -> int_of_R (IZR n) = n.
Proof.
  intros Hn. unfold int_of_R.
  destruct (Rle_dec 0 (IZR n)) as [_|N]; [|exfalso; apply N, IZR_le; exact Hn].
  symmetry. apply Int_part_spec. lra.
Qed.

(** The truncation of [k * n / d], for integers [0 <= n], [0 <= k] and
    [0 < d], is the integer quotient. *)
Lemma int_of_R_quotient (k n d : Z) :
  (0 <= n)%Z -> (0 <= k)%Z -> (0 < d)%Z ->
  int_of_R (IZR k * IZR n / IZR d) = (k * n / d)%Z.
Proof.
  intros Hn Hk Hd.
  assert (Hd' : 0 < IZR d) by (apply IZR_lt; exact Hd).
  assert (Hq : IZR k * IZR n / IZR d = IZR (k * n) / IZR d) by (rewrite mult_IZR; reflexivity).
  pose proof (Z.div_mod (k * n) d) as Hdm.
  pose proof (Z.mod_pos_bound (k * n) d Hd) as Hm.
  assert (Hsplit : IZR (k * n) = IZR d * IZR (k * n / d) + IZR ((k * n) mod d)).
  { rewrite <- mult_IZR, <- plus_IZR. f_equal. apply Hdm. lia. }
  assert (Hm0 : 0 <= IZR ((k * n) mod d)) by (apply IZR_le; lia).
  assert (Hm1 : IZR ((k * n) mod d) < IZR d) by (apply IZR_lt; lia).
  assert (Hlo : IZR (k * n / d) <= IZR (k * n) / IZR d).
  { apply Rmult_le_reg_r with (IZR d); [exact Hd'|].
    unfold Rdiv. rewrite Rmult_assoc, Rinv_l by lra. nra. }
  assert (Hhi : IZR (k * n) / IZR d < IZR (k * n / d) + 1).
  { apply Rmult_lt_reg_r with (IZR d); [exact Hd'|].
    unfold Rdiv. rewrite Rmult_assoc, Rinv_l by lra. nra. }
  rewrite Hq. unfold int_of_R.
  destruct (Rle_dec 0 (IZR (k * n) / IZR d)) as [_|N].
  - symmetry. apply Int_part_spec. lra.
  - exfalso. apply N.
    assert (0 <= IZR (k * n / d)) by (apply IZR_le, Z.div_pos; nia).
    lra.
Qed.

(** *** The centre of the patch *)

Lemma coord_centre (r tw th : Z) :
  (0 < r)%Z ->
  coord_u r tw 0 0 = IZR 1 * IZR (tw - 1) / IZR 2 /\
  coord_v r th 0 = IZR 1 * IZR (th - 1) / IZR 2.
Proof.
  intros Hr. assert (Hr' : 0 < IZR r) by (apply IZR_lt; exact Hr).
  pose proof PI_RGT_0 as Hpi.
  unfold coord_u, coord_v. cbv zeta.
  replace (IZR 0 / IZR r) with 0 by (field; lra).
  replace (1 - 0 * 0 - 0 * 0) with 1 by ring.
  rewrite Rmax_right by lra. rewrite sqrt_1, asin_0.
  assert (E : atan2 0 1 = 0).
  { unfold atan2. destruct (Rlt_dec 0 1); [|lra].
    replace (0 / 1) with 0 by field. apply atan_0. }
  rewrite E. split; field; lra.
Qed.

(** X10. The centre pixel of every patch shows the texel at the middle row and
    the middle column of the source image. *)
Theorem patch_centre_shows_image_centre (tex : texture) (r : Z) :
  (0 < r)%Z -> (1 <= tex_w tex)%Z -> (1 <= tex_h tex)%Z ->
  exists disc,
    map_texture_to_disc tex r = Ok disc /\
    px disc r r =
    int_of_R (tex_at tex ((tex_h tex - 1) / 2)%Z ((tex_w tex - 1) / 2)%Z * 65535).
Proof.
  intros Hr Htw Hth.
  destruct (map_texture_to_disc_cells tex r Hr Htw Hth) as (disc & E & _ & _ & Hpx).
  exists disc. split; [exact E|].
  specialize (Hpx 0%Z 0%Z ltac:(lia) ltac:(lia)).
  cbn [Z.add Z.mul] in Hpx. rewrite Hpx.
  destruct (Z.leb_spec 0 (r ^ 2)) as [_|N]; [|nia].
  unfold texel.
  destruct (coord_centre r (tex_w tex) (tex_h tex) Hr) as [-> ->].
  rewrite !int_of_R_quotient by lia.
  rewrite !Z.mul_1_l. reflexivity.
Qed.

(** *** The columns read *)

(** X11. The longitude of a pixel of the disk lies on the near hemisphere, so
    its column lies in the middle half of the source image: between the
    integer quotients [(tw - 1) / 4] and [3 (tw - 1) / 4]. *)
Theorem columns_read_are_central (r tw th dx dy : Z) :
  (0 < r)%Z -> (dx * dx + dy * dy <= r ^ 2)%Z -> (1 <= tw)%Z -> (1 <= th)%Z ->
  exists yy s,
    py_div dy r = Ok yy /\
    sample_of r tw th dx yy = Ok s /\
    IZR (tw - 1) / 4 <= s_u s <= 3 * IZR (tw - 1) / 4 /\
    ((tw - 1) / 4 <= s_ui s <= 3 * (tw - 1) / 4)%Z.
Proof.
  intros Hr Hd Htw Hth.
  destruct (sample_of_in_disk r tw th dx dy Hr Hd Htw Hth)
    as (yy & s & Hyy & Hs & Eyy & Exx & Ez & Elat & Elon & Eu & Ev & Eui & _ & Hu & _).
  exists yy, s. split; [exact Hyy|]. split; [exact Hs|].
  pose proof PI_RGT_0 as Hpi.
  assert (Hlon : - (PI / 2) <= s_lon s <= PI / 2).
  { rewrite Elon. apply atan2_range. rewrite Ez. apply sqrt_pos. }
  assert (HN : 0 <= IZR (tw - 1)) by (apply IZR_le; lia).
  set (t := (s_lon s + PI) / (2 * PI)) in *.
  assert (Ht : / 4 <= t <= 3 / 4).
  { assert (Et : t * (2 * PI) = s_lon s + PI) by (unfold t; field; lra).
    split; apply Rmult_le_reg_r with (2 * PI); nra. }
  assert (Hrange : IZR (tw - 1) / 4 <= s_u s <= 3 * IZR (tw - 1) / 4).
  { rewrite Eu. fold t. split; nra. }
  split; [exact Hrange|].
  rewrite Eui.
  replace ((tw - 1) / 4)%Z with (1 * (tw - 1) / 4)%Z by (rewrite Z.mul_1_l; reflexivity).
  rewrite <- (int_of_R_quotient 1 (tw - 1) 4) by lia.
  rewrite <- (int_of_R_quotient 3 (tw - 1) 4) by lia.
  split; apply int_of_R_mono; lra.
Qed.

(** *** The rows read *)

Lemma asin_mono (x y : R) :
  -1 <= x -> x <= y -> y <= 1 -> asin x <= asin y.
Proof.
  intros Hx Hxy Hy.
  pose proof (asin_bound x) as [Bx1 Bx2].
  pose proof (asin_bound y) as [By1 By2].
  apply sin_incr_0; try assumption.
  rewrite !sin_asin by lra. exact Hxy.
Qed.

Lemma coord_v_antitone (r th dy1 dy2 : Z) :
  (0 < r)%Z -> (1 <= th)%Z -> (- r <= dy1)%Z -> (dy1 <= dy2)%Z -> (dy2 <= r)%Z ->
  0 <= coord_v r th dy2 /\ coord_v r th dy2 <= coord_v r th dy1.
Proof.
  intros Hr Hth H1 H12 H2.
  assert (Hr' : 0 < IZR r) by (apply IZR_lt; exact Hr).
  assert (HN : 0 <= IZR (th - 1)) by (apply IZR_le; lia).
  pose proof PI_RGT_0 as Hpi.
  assert (Hq : forall a b : Z, (a <= b)%Z -> IZR a / IZR r <= IZR b / IZR r).
  { intros a b Hab. apply Rmult_le_compat_r; [left; apply Rinv_0_lt_compat; exact Hr'|].
    apply IZR_le. exact Hab. }
  assert (Hlo : -1 <= IZR dy1 / IZR r).
  { replace (-1) with (IZR (- r) / IZR r) by (rewrite opp_IZR; field; lra).
    apply Hq. exact H1. }
  assert (Hhi : IZR dy2 / IZR r <= 1).
  { replace 1 with (IZR r / IZR r) by (field; lra). apply Hq. exact H2. }
  pose proof (asin_mono _ _ Hlo (Hq _ _ H12) Hhi) as Hm.
  pose proof (asin_bound (IZR dy2 / IZR r)) as [_ Hb].
  unfold coord_v. cbv zeta.
  set (l1 := asin (IZR dy1 / IZR r)) in *. set (l2 := asin (IZR dy2 / IZR r)) in *.
  assert (E1 : (PI / 2 - l1) / PI * PI = PI / 2 - l1) by (field; lra).
  assert (E2 : (PI / 2 - l2) / PI * PI = PI / 2 - l2) by (field; lra).
  assert (0 <= (PI / 2 - l2) / PI) by (apply Rmult_le_reg_r with PI; nra).
  assert ((PI / 2 - l2) / PI <= (PI / 2 - l1) / PI) by (apply Rmult_le_reg_r with PI; nra).
  split; nra.
Qed.

Lemma coord_v_ends (r th : Z) :
  (0 < r)%Z ->
  coord_v r th (- r) = IZR (th - 1) /\ coord_v r th r = 0.
Proof.
  intros Hr. assert (Hr' : 0 < IZR r) by (apply IZR_lt; exact Hr).
  pose proof PI_RGT_0 as Hpi.
  unfold coord_v. cbv zeta.
  replace (IZR (- r) / IZR r) with (Ropp 1) by (rewrite opp_IZR; field; lra).
  replace (IZR r / IZR r) with 1 by (field; lra).
  rewrite asin_opp, asin_1. split; field; lra.
Qed.

(** X12. The patch shows the source image upside down: the row read never
    grows as [dy] grows, the top pixel of the disk shows the last row of
    the image, at its middle column, and the bottom pixel shows the first
    row. *)
Theorem rows_read_are_flipped (tex : texture) (r : Z) :
  (0 < r)%Z -> (1 <= tex_w tex)%Z -> (1 <= tex_h tex)%Z ->
  (forall dy1 dy2, (- r <= dy1)%Z -> (dy1 <= dy2)%Z -> (dy2 <= r)%Z ->
     (int_of_R (coord_v r (tex_h tex) dy2) <= int_of_R (coord_v r (tex_h tex) dy1))%Z) /\
  exists disc,
    map_texture_to_disc tex r = Ok disc /\
    px disc 0%Z r =
      int_of_R (tex_at tex (tex_h tex - 1)%Z ((tex_w tex - 1) / 2)%Z * 65535) /\
    px disc (2 * r)%Z r =
      int_of_R (tex_at tex 0%Z ((tex_w tex - 1) / 2)%Z * 65535).
Proof.
  intros Hr Htw Hth. split.
  - intros dy1 dy2 H1 H12 H2.
    destruct (coord_v_antitone r (tex_h tex) dy1 dy2 Hr Hth H1 H12 H2) as [H0 Hle].
    apply int_of_R_mono; assumption.
  - destruct (map_texture_to_disc_cells tex r Hr Htw Hth) as (disc & E & _ & _ & Hpx).
    exists disc. split; [exact E|].
    assert (Hr' : 0 < IZR r) by (apply IZR_lt; exact Hr).
    pose proof PI_RGT_0 as Hpi.
    assert (Eu : forall dy, (dy = - r \/ dy = r)%Z ->
                 coord_u r (tex_w tex) 0 dy = IZR 1 * IZR (tex_w tex - 1) / IZR 2).
    { intros dy Hdy. unfold coord_u. cbv zeta.
      replace (IZR 0 / IZR r) with 0 by (field; lra).
      assert (Hyy : IZR dy / IZR r * (IZR dy / IZR r) = 1).
      { destruct Hdy as [-> | ->]; [rewrite opp_IZR|]; field; lra. }
      rewrite Hyy. replace (1 - 0 * 0 - 1) with 0 by ring.
      rewrite Rmax_left by lra. rewrite sqrt_0.
      assert (E0 : atan2 0 0 = 0).
      { unfold atan2. repeat (destruct (Rlt_dec _ _); try lra). }
      rewrite E0. field. lra. }
    destruct (coord_v_ends r (tex_h tex) Hr) as [Etop Ebot].
    split.
    + specialize (Hpx 0%Z (- r)%Z ltac:(lia) ltac:(lia)).
      replace (- r + r)%Z with 0%Z in Hpx by lia.
      cbn [Z.add] in Hpx. rewrite Hpx.
      destruct (Z.leb_spec (0 * 0 + - r * - r) (r ^ 2)) as [_|N]; [|nia].
      unfold texel. rewrite Etop, (Eu (- r)%Z) by (left; reflexivity).
      rewrite int_of_R_IZR by lia. rewrite int_of_R_quotient by lia.
      rewrite Z.mul_1_l. reflexivity.
    + specialize (Hpx 0%Z r ltac:(lia) ltac:(lia)).
      replace (r + r)%Z with (2 * r)%Z in Hpx by lia.
      cbn [Z.add] in Hpx. rewrite Hpx.
      destruct (Z.leb_spec (0 * 0 + r * r) (r ^ 2)) as [_|N]; [|nia].
      unfold texel. rewrite Ebot, (Eu r) by (right; reflexivity).
      replace 0 with (IZR 0) at 1 by reflexivity.
      rewrite int_of_R_IZR by lia. rewrite int_of_R_quotient by lia.
      rewrite Z.mul_1_l. reflexivity.
Qed.

(** *** The radius *)

(** X13. [map_texture_to_disc] returns a patch exactly for a positive radius (the
    source image having a row and a column): the radius 0 divides by zero
    and a negative radius asks for an array of negative side. *)
Theorem projector_radius (tex : texture) (r : Z) :
  (1 <= tex_w tex)%Z -> (1 <= tex_h tex)%Z ->
  ((0 < r)%Z -> exists disc, map_texture_to_disc tex r = Ok disc) /\
  (r = 0%Z -> map_texture_to_disc tex r = Raise ZeroDivisionError) /\
  ((r < 0)%Z -> map_texture_to_disc tex r = Raise ValueError).
Proof.
  intros Htw Hth. split; [|split].
  - intros Hr.
    destruct (map_texture_to_disc_cells tex r Hr Htw Hth) as (disc & E & _).
    exists disc. exact E.
  - intros ->. reflexivity.
  - intros Hr. unfold map_texture_to_disc.
    destruct (Z.ltb_spec (r * 2 + 1) 0); [reflexivity | lia].
Qed.

Definition tex32 : texture :=
  {| tex_h := 3; tex_w := 2; tex_at := fun i j => IZR (i + j) / 4 |}.

Lemma patch_centre_shows_image_centre_witness :
  exists disc,
    map_texture_to_disc tex32 2 = Ok disc /\
    px disc 2%Z 2%Z =
    int_of_R (tex_at tex32 ((tex_h tex32 - 1) / 2)%Z ((tex_w tex32 - 1) / 2)%Z * 65535).
Proof.
  apply (patch_centre_shows_image_centre tex32 2); simpl; lia.
Defined.

Lemma columns_read_are_central_witness :
  exists yy s,
    py_div 1 2 = Ok yy /\
    sample_of 2 9 3 (-1) yy = Ok s /\
    IZR (9 - 1) / 4 <= s_u s <= 3 * IZR (9 - 1) / 4 /\
    ((9 - 1) / 4 <= s_ui s <= 3 * (9 - 1) / 4)%Z.
Proof.
  apply (columns_read_are_central 2 9 3 (-1) 1); lia.
Defined.

Lemma rows_read_are_flipped_witness :
  (forall dy1 dy2, (- 2 <= dy1)%Z -> (dy1 <= dy2)%Z -> (dy2 <= 2)%Z ->
     (int_of_R (coord_v 2 (tex_h tex32) dy2) <= int_of_R (coord_v 2 (tex_h tex32) dy1))%Z) /\
  exists disc,
    map_texture_to_disc tex32 2 = Ok disc /\
    px disc 0%Z 2%Z =
      int_of_R (tex_at tex32 (tex_h tex32 - 1)%Z ((tex_w tex32 - 1) / 2)%Z * 65535) /\
    px disc (2 * 2)%Z 2%Z =
      int_of_R (tex_at tex32 0%Z ((tex_w tex32 - 1) / 2)%Z * 65535).
Proof.
  apply (rows_read_are_flipped tex32 2); simpl; lia.
Defined.

Lemma projector_radius_witness :
  ((0 < 2)%Z -> exists disc, map_texture_to_disc tex32 2 = Ok disc) /\
  (2%Z = 0%Z -> map_texture_to_disc tex32 2 = Raise ZeroDivisionError) /\
  ((2 < 0)%Z -> map_texture_to_disc tex32 2 = Raise ValueError).
Proof.
  apply (projector_radius tex32 2); simpl; lia.
Defined.

End ProjectorMore.

(** ** Shapes that share no pixel, and the order of painting *)

(** The scalar product of two vectors is at least minus the product of
    bounds of their lengths. *)
Lemma dot_bound (u1 u2 v1 v2 a b : Z) :
  0 <= a -> 0 <= b ->
  u1 * u1 + u2 * u2 <= a * a -> v1 * v1 + v2 * v2 <= b * b ->
  - (a * b) <= u1 * v1 + u2 * v2.
Proof.
  intros Ha Hb Hu Hv.
  set (P := u1 * u1 + u2 * u2) in *. set (Q := v1 * v1 + v2 * v2) in *.
  set (D := u1 * v1 + u2 * v2).
  set (C := u1 * v2 - u2 * v1).
  assert (HP : 0 <= P).
  { unfold P. pose proof (Z.square_nonneg u1). pose proof (Z.square_nonneg u2). lia. }
  assert (HQ : 0 <= Q).
  { unfold Q. pose proof (Z.square_nonneg v1). pose proof (Z.square_nonneg v2). lia. }
  assert (Hid : D * D + C * C = P * Q) by (unfold D, C, P, Q; ring).
  pose proof (Z.square_nonneg C) as HC.
  assert (HPQ : P * Q <= (a * a) * (b * b))
    by (apply Z.mul_le_mono_nonneg; assumption).
  assert (Hab : 0 <= a * b) by (apply Z.mul_nonneg_nonneg; assumption).
  assert (Hsq : D * D <= (a * b) * (a * b)).
  { replace ((a * b) * (a * b)) with ((a * a) * (b * b)) by ring. lia. }
  destruct (Z.le_gt_cases (- (a * b)) D) as [|Hlt]; [assumption|].
  exfalso.
  assert (Hlt' : a * b < - D) by lia.
  assert ((a * b) * (a * b) < (- D) * (- D))
    by (apply Z.mul_lt_mono_nonneg; lia).
  replace ((- D) * (- D)) with (D * D) in * by ring. lia.
Qed.

(** Two disks whose centres are at least the sum of their radii plus a
    margin apart have no point in common. *)
Lemma disks_apart_disjoint (ax ay ar bx b_y br m y x : Z) :
  0 <= ar -> 0 <= br -> 0 < m ->
  (ar + br + m) ^ 2 <= (ax - bx) ^ 2 + (ay - b_y) ^ 2 ->
  (x - ax) ^ 2 + (y - ay) ^ 2 <= ar ^ 2 ->
  (x - bx) ^ 2 + (y - b_y) ^ 2 <= br ^ 2 ->
  False.
Proof.
  rewrite !Z.pow_2_r. intros Ha Hb Hm Hsep H1 H2.
  pose proof (dot_bound (x - ax) (y - ay) (x - bx) (y - b_y) ar br Ha Hb H1 H2) as Hdot.
  assert (Hexp : (ax - bx) * (ax - bx) + (ay - b_y) * (ay - b_y)
                 = ((x - ax) * (x - ax) + (y - ay) * (y - ay))
                   + ((x - bx) * (x - bx) + (y - b_y) * (y - b_y))
                   - 2 * ((x - ax) * (x - bx) + (y - ay) * (y - b_y))) by ring.
  assert (Hsum : (ar + br + m) * (ar + br + m)
                 = ar * ar + br * br + 2 * (ar * br) + m * (2 * ar + 2 * br + m)) by ring.
  assert (Hpos : 0 < m * (2 * ar + 2 * br + m)) by (apply Z.mul_pos_pos; lia).
  rewrite Hexp, Hsum in Hsep.
  set (P := (x - ax) * (x - ax) + (y - ay) * (y - ay)) in *.
  set (Q := (x - bx) * (x - bx) + (y - b_y) * (y - b_y)) in *.
  set (D := (x - ax) * (x - bx) + (y - ay) * (y - b_y)) in *.
  set (A := ar * ar) in *. set (B := br * br) in *. set (AB := ar * br) in *.
  set (M := m * (2 * ar + 2 * br + m)) in *.
  clearbody P Q D A B AB M. lia.
Qed.

Section PaintOrder.

Variables width height : Z.

(** X14. Asteroids that pass the test of the belt share no pixel: the test asks
    for the distance of the centres to be at least the two radii plus 2. *)
Theorem separated_disks_share_no_pixel (ax ay ar bx b_y br y x : Z) :
  BeltSeparation.apart (ax, ay, ar) (bx, b_y, br) ->
  in_disk ax ay ar y x && in_disk bx b_y br y x = false.
Proof.
  unfold BeltSeparation.apart, in_disk. intros Hsep.
  apply Bool.not_true_is_false.
  rewrite !andb_true_iff, !Z.leb_le. intros ((Ha & H1) & (Hb & H2)).
  apply (disks_apart_disjoint ax ay ar bx b_y br 2 y x); try assumption; lia.
Qed.



End PaintOrder.

Lemma separated_disks_share_no_pixel_witness :
  in_disk 10 10 8 14 14 && in_disk 30 10 10 14 14 = false.
Proof.
  apply (separated_disks_share_no_pixel 10 10 8 30 10 10 14 14).
  unfold BeltSeparation.apart. lia.
Defined.


(** ** The ring pass and the body pass *)

Lemma paint_rings_ok (l : list ring) :
  forall c, exists c',
    paint_rings c l = Ok c' /\
    forall y x,
      forallb (fun g => negb (in_canvas WIDTH HEIGHT y x
                              && in_ring (ring_cx g) (ring_cy g) (ring_in g)
                                   (ring_out g) y x)) l = true ->
      c' y x = c y x.
Proof.
  unfold paint_rings. induction l as [|g l IH]; intros c.
  - exists c. split; [reflexivity|]. reflexivity.
  - cbn [foldM].
    destruct (draw_annulus_pixels WIDTH HEIGHT c (ring_cx g) (ring_cy g) (ring_in g)
                (ring_out g) (ring_val g)) as (c1 & -> & H1).
    cbn [bind]. destruct (IH c1) as (c' & E & H').
    exists c'. split; [exact E|].
    intros y x Hall. cbn [forallb] in Hall.
    apply andb_true_iff in Hall. destruct Hall as [Hg Hl].
    rewrite (H' y x Hl), H1.
    apply negb_true_iff in Hg. rewrite Hg. reflexivity.
Qed.

Lemma paint_bodies_ok (l : list body) :
  forall c, exists c',
    paint_bodies c l = Ok c' /\
    forall y x,
      c' y x =
      if in_canvas WIDTH HEIGHT y x
         && existsb (fun b => in_disk (body_cx b) (body_cy b) (body_r b) y x) l
      then GRAY_PLANET else c y x.
Proof.
  unfold paint_bodies. induction l as [|b l IH]; intros c.
  - exists c. split; [reflexivity|]. intros y x.
    cbn [existsb]. rewrite andb_false_r. reflexivity.
  - cbn [foldM].
    destruct (draw_circle_pixels WIDTH HEIGHT c (body_cx b) (body_cy b) (body_r b)
                GRAY_PLANET) as (c1 & -> & H1).
    cbn [bind]. destruct (IH c1) as (c' & E & H').
    exists c'. split; [exact E|].
    intros y x. rewrite H', H1. cbn [existsb].
    destruct (in_canvas WIDTH HEIGHT y x),
             (in_disk (body_cx b) (body_cy b) (body_r b) y x),
             (existsb (fun b0 => in_disk (body_cx b0) (body_cy b0) (body_r b0) y x) l);
      reflexivity.
Qed.


(** ** The moon loop on any list of moons *)

Module MoonLoop.

(** *** The sort *)

Lemma insert_by_a_perm (m : moon) (l : list moon) :
  Permutation (m :: l) (insert_by_a m l).
Proof.
  induction l as [|m' l IH]; cbn [insert_by_a].
  - apply Permutation_refl.
  - destruct (m_a_km m <? m_a_km m').
    + apply Permutation_refl.
    + apply perm_trans with (m' :: m :: l); [apply perm_swap|].
      apply perm_skip. exact IH.
Qed.

Lemma insert_by_a_sorted (m : moon) (l : list moon) :
  Sorted (fun a b => m_a_km a <= m_a_km b) l ->
  Sorted (fun a b => m_a_km a <= m_a_km b) (insert_by_a m l).
Proof.
  induction l as [|m' l IH]; intros Hs; cbn [insert_by_a].
  - constructor; constructor.
  - destruct (Z.ltb_spec (m_a_km m) (m_a_km m')) as [Hlt|Hge].
    + constructor; [exact Hs|]. constructor. lia.
    + inversion Hs as [|? ? Hs' Hhd]; subst.
      constructor; [apply IH; exact Hs'|].
      destruct l as [|m'' l]; cbn [insert_by_a].
      * constructor. exact Hge.
      * destruct (m_a_km m <? m_a_km m''); constructor;
          [exact Hge | inversion Hhd; assumption].
Qed.

Lemma sorted_by_a_spec (l : list moon) :
  Permutation l (sorted_by_a l) /\
  Sorted (fun a b => m_a_km a <= m_a_km b) (sorted_by_a l).
Proof.
  unfold sorted_by_a.
  assert (G : forall acc,
            Sorted (fun a b => m_a_km a <= m_a_km b) acc ->
            Permutation (l ++ acc)
              (fold_left (fun acc m => insert_by_a m acc) l acc) /\
            Sorted (fun a b => m_a_km a <= m_a_km b)
              (fold_left (fun acc m => insert_by_a m acc) l acc)).
  { induction l as [|m l IH]; intros acc Hacc; cbn [fold_left app].
    - split; [apply Permutation_refl | exact Hacc].
    - destruct (IH (insert_by_a m acc) (insert_by_a_sorted m acc Hacc)) as [Hp Hs].
      split; [|exact Hs].
      apply perm_trans with (l ++ insert_by_a m acc)%list; [|exact Hp].
      apply perm_trans with (l ++ m :: acc)%list.
      + apply Permutation_middle.
      + apply Permutation_app_head. apply insert_by_a_perm. }
  destruct (G [] (Sorted_nil _)) as [Hp Hs].
  rewrite app_nil_r in Hp. split; assumption.
Qed.

(** *** The loop *)

Lemma mapM_Forall2 {A B : Type} (f : A -> result B) (l : list A) (bs : list B) :
  mapM f l = Ok bs -> Forall2 (fun a b => f a = Ok b) l bs.
Proof.
  revert bs. induction l as [|a l IH]; intros bs; cbn [mapM].
  - intros H. inversion H. constructor.
  - destruct (f a) as [b|e] eqn:E; cbn [bind]; [|discriminate].
    destruct (mapM f l) as [bs'|e]; cbn [bind]; [|discriminate].
    intros H. inversion H. constructor; [exact E | apply IH; reflexivity].
Qed.

Lemma Forall2_map_eq {A B C : Type} (R : A -> B -> Prop) (f : B -> C) (g : A -> C)
    (l : list A) (bs : list B) :
  Forall2 R l bs -> (forall a b, R a b -> f b = g a) -> map f bs = map g l.
Proof.
  intros H Hfg. induction H as [|a b l bs Hab _ IH]; [reflexivity|].
  cbn [map]. rewrite (Hfg a b Hab), IH. reflexivity.
Qed.

Lemma enumerate_spec {A : Type} (l : list A) (start : Z) :
  map snd (enumerate start l) = l /\
  map fst (enumerate start l)
    = map (fun i => start + Z.of_nat i) (seq 0 (List.length l)).
Proof.
  revert start. induction l as [|a l IH]; intros start; cbn [enumerate map List.length seq].
  - split; reflexivity.
  - destruct (IH (start + 1)) as [H1 H2]. split.
    + cbn [snd]. rewrite H1. reflexivity.
    + cbn [fst]. rewrite H2, <- seq_shift, map_map. f_equal; [lia|].
      apply map_ext. intros i. lia.
Qed.

(** What the body of the loop returns for one moon, when it returns. *)
Lemma place_moon_fields (planet : string) (cxp cyp base_outer max_a : Z)
    (im : Z * moon) (p : moon_place) :
  place_moon planet cxp cyp base_outer max_a im = Ok p ->
  mp_planet p = planet /\ mp_name p = m_name (snd im) /\
  mp_a_km p = m_a_km (snd im) /\ mp_idx p = fst im /\ mp_mx p = cxp /\
  6 <= mp_mr p /\ mp_mr p mod 3 = 0 /\
  exists off, int_round (mp_offset p) = Ok off /\
    mp_my p = (if fst im mod 2 =? 0 then cyp - off else cyp + off).
Proof.
  destruct im as [idx m]. unfold place_moon, moon_base_px. cbn [fst snd].
  destruct scale as [s|e]; cbn [bind]; [|discriminate].
  destruct (int_round _) as [v|e]; cbn [bind]; [|discriminate].
  destruct (truediv_int _ _) as [frac|e]; cbn [bind]; [|discriminate].
  destruct (int_round _) as [off|e] eqn:Eoff; cbn [bind]; [|discriminate].
  intros H. inversion H; subst p; clear H.
  cbn [mp_planet mp_name mp_a_km mp_idx mp_mx mp_mr mp_my mp_offset].
  repeat (split; [first [reflexivity | lia]|]).
  split; [apply Z.mod_mul; lia|].
  exists off. split; [exact Eoff|].
  destruct (idx mod 2 =? 0); lia.
Qed.

(** X18. What the moon loop gives for any planet and any list of moons it
    accepts: all the moons, once each,
    in ascending order of semi-major axis, numbered from 0, on the vertical
    line through the planet's centre, above it for an even index and below
    for an odd one (by the rounded offset), each with a radius that is a
    multiple of 3 and at least 6. *)
Theorem moon_loop_places_all (planet : string) (moons : list moon)
    (ps : list moon_place) :
  place_moons_of planet moons = Ok ps ->
  exists cx cy cxp cyp,
    centre_x = Ok cx /\ centre_y = Ok cy /\
    getitem cx planet = Ok cxp /\ getitem cy planet = Ok cyp /\
    Permutation (map (fun m => (m_name m, m_a_km m)) moons)
                (map (fun p => (mp_name p, mp_a_km p)) ps) /\
    Sorted Z.le (map mp_a_km ps) /\
    map mp_idx ps = map Z.of_nat (seq 0 (List.length ps)) /\
    Forall (fun p =>
              mp_planet p = planet /\ mp_mx p = cxp /\
              6 <= mp_mr p /\ mp_mr p mod 3 = 0 /\
              exists off, int_round (mp_offset p) = Ok off /\
                mp_my p = (if Z.even (mp_idx p) then cyp - off else cyp + off)) ps.
Proof.
  unfold place_moons_of.
  destruct centre_x as [cx|e]; cbn [bind]; [|discriminate].
  destruct centre_y as [cy|e]; cbn [bind]; [|discriminate].
  destruct (getitem cx planet) as [cxp|e] eqn:Ecx; cbn [bind]; [|discriminate].
  destruct (getitem cy planet) as [cyp|e] eqn:Ecy; cbn [bind]; [|discriminate].
  match goal with |- bind ?m _ = _ -> _ => destruct m as [base_outer|e] end;
    cbn [bind]; [|discriminate].
  destruct (max_a_of moons) as [max_a|e]; cbn [bind]; [|discriminate].
  intros Hmap. apply mapM_Forall2 in Hmap.
  exists cx, cy, cxp, cyp. repeat (split; [first [reflexivity | assumption]|]).
  destruct (sorted_by_a_spec moons) as [Hperm Hsorted].
  destruct (enumerate_spec (sorted_by_a moons) 0) as [Hsnd Hfst].
  assert (Hnames : map (fun p => (mp_name p, mp_a_km p)) ps
                   = map (fun m => (m_name m, m_a_km m)) (sorted_by_a moons)).
  { rewrite <- Hsnd at 1. rewrite map_map.
    apply (Forall2_map_eq _ _ _ _ _ Hmap).
    intros im p Hp. apply place_moon_fields in Hp.
    destruct Hp as (_ & -> & -> & _). reflexivity. }
  assert (Hkeys : map mp_a_km ps = map m_a_km (sorted_by_a moons)).
  { rewrite <- Hsnd at 1. rewrite map_map.
    apply (Forall2_map_eq _ _ _ _ _ Hmap).
    intros im p Hp. apply place_moon_fields in Hp.
    destruct Hp as (_ & _ & -> & _). reflexivity. }
  assert (Hidx : map mp_idx ps = map fst (enumerate 0 (sorted_by_a moons))).
  { apply (Forall2_map_eq _ _ _ _ _ Hmap).
    intros im p Hp. apply place_moon_fields in Hp.
    destruct Hp as (_ & _ & _ & -> & _). reflexivity. }
  assert (Hlen : List.length ps = List.length (sorted_by_a moons)).
  { rewrite <- (length_map mp_a_km ps), Hkeys, length_map. reflexivity. }
  split.
  { rewrite Hnames. apply Permutation_map. exact Hperm. }
  split.
  { rewrite Hkeys. clear - Hsorted.
    induction Hsorted as [|m l Hs IH Hhd]; cbn [map]; constructor; [exact IH|].
    destruct Hhd; cbn [map]; constructor. assumption. }
  split.
  { rewrite Hidx, Hfst, Hlen. apply map_ext. intros i. lia. }
  clear - Hmap. induction Hmap as [|im p l ps' Hp _ IH]; constructor; [|exact IH].
  apply place_moon_fields in Hp.
  destruct Hp as (H1 & _ & _ & H4 & H5 & H6 & H7 & off & H8 & H9).
  repeat (split; [assumption|]).
  exists off. split; [exact H8|]. rewrite H9, H4.
  destruct (Z.eqb_spec (fst im mod 2) 0) as [E|E].
  - rewrite (proj2 (Z.even_spec (fst im))); [reflexivity|].
    exists (fst im / 2). pose proof (Z.div_mod (fst im) 2). lia.
  - destruct (Z.even (fst im)) eqn:Ev; [|reflexivity].
    apply Z.even_spec in Ev. destruct Ev as [k Hk].
    exfalso. apply E. rewrite Hk, Z.mul_comm. apply Z.mod_mul. lia.
Qed.

(** X19. A planet of the table given no moon makes the loop raise: the maximum
    of an empty sequence is a [ValueError]. *)
Theorem moon_loop_needs_a_moon (planet : string) :
  mem planet (keys PLANET_KM) = true ->
  place_moons_of planet [] = Raise ValueError.
Proof.
  unfold mem, keys, PLANET_KM. cbn [map fst existsb].
  intros H.
  repeat (apply orb_true_iff in H; destruct H as [H|H];
          [apply String.eqb_eq in H; subst planet; vm_compute; reflexivity|]).
  discriminate H.
Qed.

Lemma moon_loop_places_all_witness :
  exists cx cy cxp cyp,
    centre_x = Ok cx /\ centre_y = Ok cy /\
    getitem cx "Mars" = Ok cxp /\ getitem cy "Mars" = Ok cyp /\
    Permutation
      (map (fun m => (m_name m, m_a_km m))
           [("Deimos", PFloat 6.2%float, 23460); ("Phobos", PFloat 11.27%float, 9377)])
      (map (fun p => (mp_name p, mp_a_km p))
           [ {| mp_planet := "Mars"; mp_name := "Phobos"; mp_idx := 0;
                mp_a_km := 9377; mp_base_outer := 306; mp_mr := 6;
                mp_offset := 488.30869565217392%float; mp_mx := 4835;
                mp_my := 3608; mp_disc := true |};
             {| mp_planet := "Mars"; mp_name := "Deimos"; mp_idx := 1;
                mp_a_km := 23460; mp_base_outer := 306; mp_mr := 6;
                mp_offset := 672%float; mp_mx := 4835; mp_my := 4768;
                mp_disc := true |} ]) /\
    Sorted Z.le (map mp_a_km
           [ {| mp_planet := "Mars"; mp_name := "Phobos"; mp_idx := 0;
                mp_a_km := 9377; mp_base_outer := 306; mp_mr := 6;
                mp_offset := 488.30869565217392%float; mp_mx := 4835;
                mp_my := 3608; mp_disc := true |};
             {| mp_planet := "Mars"; mp_name := "Deimos"; mp_idx := 1;
                mp_a_km := 23460; mp_base_outer := 306; mp_mr := 6;
                mp_offset := 672%float; mp_mx := 4835; mp_my := 4768;
                mp_disc := true |} ]) /\
    map mp_idx
           [ {| mp_planet := "Mars"; mp_name := "Phobos"; mp_idx := 0;
                mp_a_km := 9377; mp_base_outer := 306; mp_mr := 6;
                mp_offset := 488.30869565217392%float; mp_mx := 4835;
                mp_my := 3608; mp_disc := true |};
             {| mp_planet := "Mars"; mp_name := "Deimos"; mp_idx := 1;
                mp_a_km := 23460; mp_base_outer := 306; mp_mr := 6;
                mp_offset := 672%float; mp_mx := 4835; mp_my := 4768;
                mp_disc := true |} ]
      = map Z.of_nat (seq 0 2) /\
    Forall (fun p =>
              mp_planet p = "Mars" /\ mp_mx p = cxp /\
              6 <= mp_mr p /\ mp_mr p mod 3 = 0 /\
              exists off, int_round (mp_offset p) = Ok off /\
                mp_my p = (if Z.even (mp_idx p) then cyp - off else cyp + off))
           [ {| mp_planet := "Mars"; mp_name := "Phobos"; mp_idx := 0;
                mp_a_km := 9377; mp_base_outer := 306; mp_mr := 6;
                mp_offset := 488.30869565217392%float; mp_mx := 4835;
                mp_my := 3608; mp_disc := true |};
             {| mp_planet := "Mars"; mp_name := "Deimos"; mp_idx := 1;
                mp_a_km := 23460; mp_base_outer := 306; mp_mr := 6;
                mp_offset := 672%float; mp_mx := 4835; mp_my := 4768;
                mp_disc := true |} ].
Proof.
  apply (moon_loop_places_all "Mars"
           [("Deimos", PFloat 6.2%float, 23460); ("Phobos", PFloat 11.27%float, 9377)]).
  vm_compute. reflexivity.
Defined.

Lemma moon_loop_needs_a_moon_witness :
  place_moons_of "Pluto" [] = Raise ValueError.
Proof. apply (moon_loop_needs_a_moon "Pluto"). reflexivity. Defined.

End MoonLoop.

(** ** The whole script *)

Module Script.
Import Projector ProjectorFacts Belt BeltFacts.

(** The five source images. *)
Record textures : Type := {
  tex_mars : texture;
  tex_moon : texture;
  tex_mercury : texture;
  tex_venus : texture;
  tex_pluto : texture
}.

(** The radius and the centre of a planet, as the texture calls read them. *)
Definition planet_disc (p : string) : result (Z * Z * Z) :=
  rp <- radius_px ;; cx <- centre_x ;; cy <- centre_y ;;
  r <- getitem rp p ;; x <- getitem cx p ;; y <- getitem cy p ;;
  Ok (r, x, y).

(** [disc = map_texture_to_disc(path, r); paste_disc(cx, cy, disc)] *)
Definition textured (c : pixels) (tex : texture) (r cx cy : Z) : result pixels :=
  disc <- map_texture_to_disc tex r ;;
  paste_disc WIDTH HEIGHT c cx cy disc.

Definition textured_planet (c : pixels) (tex : texture) (p : string) : result pixels :=
  '(r, x, y) <- planet_disc p ;;
  textured c tex r x y.

(** The drawing of the moon loop. *)
Definition paint_moon (c : pixels) (m : moon_place) : result pixels :=
  c <- (if mp_disc m
        then draw_circle WIDTH HEIGHT c (mp_mx m) (mp_my m) (mp_mr m) GRAY_PLANET
        else Ok c) ;;
  let r_in := mp_mr m + MOON_RING_OFF in
  draw_annulus WIDTH HEIGHT c (mp_mx m) (mp_my m) r_in (r_in + MOON_RING_THICK)
    GRAY_ORBIT_RING.

Definition paint_moons (c : pixels) (l : list moon_place) : result pixels :=
  foldM paint_moon c l.

(** The script from the blank canvas to the call that saves the image;
    the value is the canvas handed to that call. *)
Definition render (t : textures) (rng : nat -> Z) (fuel : nat)
    : result (outcome pixels) :=
  rings <- planet_rings ;;
  c <- paint_rings zeros rings ;;
  s <- saturn_ring ;;
  c <- draw_annulus WIDTH HEIGHT c (ring_cx s) (ring_cy s) (ring_in s) (ring_out s)
         (ring_val s) ;;
  bodies <- planet_bodies ;;
  c <- paint_bodies c bodies ;;
  c <- textured_planet c (tex_mars t) "Mars" ;;
  m <- textured_moon ;;
  c <- textured c (tex_moon t) (body_r m) (body_cx m) (body_cy m) ;;
  c <- textured_planet c (tex_mercury t) "Mercury" ;;
  c <- textured_planet c (tex_venus t) "Venus" ;;
  c <- textured_planet c (tex_pluto t) "Pluto" ;;
  mp <- moon_places ;;
  c <- paint_moons c (List.concat (map snd mp)) ;;
  '(belt_left, belt_right) <- belt_bounds ;;
  o <- populate rng belt_left belt_right fuel (start c) ;;
  match o with
  | Finished st => Ok (Finished (canvas st))
  | Exhausted => Ok Exhausted
  end.

(** A source image with at least one row and one column. *)
Definition loaded (tex : texture) : Prop := 1 <= tex_w tex /\ 1 <= tex_h tex.

Lemma paint_moons_ok (l : list moon_place) :
  forall c, exists c', paint_moons c l = Ok c'.
Proof.
  unfold paint_moons. induction l as [|m l IH]; intros c.
  - exists c. reflexivity.
  - cbn [foldM]. unfold paint_moon at 1.
    assert (H : exists c1,
              (if mp_disc m
               then draw_circle WIDTH HEIGHT c (mp_mx m) (mp_my m) (mp_mr m) GRAY_PLANET
               else Ok c) = Ok c1).
    { destruct (mp_disc m); [|exists c; reflexivity].
      destruct (draw_circle_pixels WIDTH HEIGHT c (mp_mx m) (mp_my m) (mp_mr m)
                  GRAY_PLANET) as (c1 & E & _).
      exists c1. exact E. }
    destruct H as (c1 & ->). cbn [bind].
    destruct (draw_annulus_pixels WIDTH HEIGHT c1 (mp_mx m) (mp_my m)
                (mp_mr m + MOON_RING_OFF) (mp_mr m + MOON_RING_OFF + MOON_RING_THICK)
                GRAY_ORBIT_RING) as (c2 & -> & _).
    cbn [bind]. apply IH.
Qed.

(** A patch of positive radius pasted where it meets the canvas. *)
Lemma textured_ok (c : pixels) (tex : texture) (r cx cy : Z) :
  loaded tex -> 0 < r ->
  cx - r < WIDTH -> 0 <= cx + r -> cy - r < HEIGHT -> 0 <= cy + r ->
  exists c', textured c tex r cx cy = Ok c'.
Proof.
  intros [Htw Hth] Hr H1 H2 H3 H4. unfold textured.
  destruct (map_texture_to_disc_cells tex r Hr Htw Hth)
    as (disc & -> & Hrows & Hcols & _).
  cbn [bind].
  destruct (paste_disc_pixels WIDTH HEIGHT c cx cy disc r) as [Hok _];
    try assumption; try (unfold WIDTH, HEIGHT; lia).
  apply Hok; assumption.
Qed.

Lemma planet_disc_eval :
  planet_disc "Mars" = Ok (240, 4835, 4096) /\
  planet_disc "Mercury" = Ok (171, 407, 4096) /\
  planet_disc "Venus" = Ok (426, 1716, 4096) /\
  planet_disc "Pluto" = Ok (84, 16256, 4096).
Proof. repeat split; vm_compute; reflexivity. Qed.

Lemma textured_moon_eval :
  textured_moon =
  Ok {| body_name := "Moon"; body_cx := 3276; body_cy := 3004; body_r := 123 |}.
Proof. vm_compute. reflexivity. Qed.

Lemma tables_evaluate :
  (exists l, planet_rings = Ok l) /\ (exists g, saturn_ring = Ok g) /\
  (exists l, planet_bodies = Ok l) /\ (exists l, moon_places = Ok l).
Proof.
  repeat split; eexists; vm_compute; reflexivity.
Qed.

(** Everything before the belt raises nothing, whatever the five images
    hold. *)
Lemma before_belt_ok (t : textures) :
  loaded (tex_mars t) -> loaded (tex_moon t) -> loaded (tex_mercury t) ->
  loaded (tex_venus t) -> loaded (tex_pluto t) ->
  forall rng fuel, exists c,
    render t rng fuel =
    (o <- populate rng 5531 7231 fuel (start c) ;;
     match o with
     | Finished st => Ok (Finished (canvas st))
     | Exhausted => Ok Exhausted
     end).
Proof.
  intros Hmars Hmoon Hmerc Hven Hplu rng fuel. unfold render.
  destruct tables_evaluate as ((rings & ->) & (g & ->) & (bodies & ->) & (mp & ->)).
  cbn [bind].
  destruct (paint_rings_ok rings zeros) as (c1 & -> & _). cbn [bind].
  destruct (draw_annulus_pixels WIDTH HEIGHT c1 (ring_cx g) (ring_cy g) (ring_in g)
              (ring_out g) (ring_val g)) as (c2 & -> & _). cbn [bind].
  destruct (paint_bodies_ok bodies c2) as (c3 & -> & _). cbn [bind].
  destruct planet_disc_eval as (Emars & Emerc & Even & Eplu).
  unfold textured_planet. rewrite Emars, Emerc, Even, Eplu, textured_moon_eval.
  cbn [bind body_r body_cx body_cy].
  destruct (textured_ok c3 (tex_mars t) 240 4835 4096 Hmars) as (c4 & ->);
    try (unfold WIDTH, HEIGHT; lia). cbn [bind].
  destruct (textured_ok c4 (tex_moon t) 123 3276 3004 Hmoon) as (c5 & ->);
    try (unfold WIDTH, HEIGHT; lia). cbn [bind].
  destruct (textured_ok c5 (tex_mercury t) 171 407 4096 Hmerc) as (c6 & ->);
    try (unfold WIDTH, HEIGHT; lia). cbn [bind].
  destruct (textured_ok c6 (tex_venus t) 426 1716 4096 Hven) as (c7 & ->);
    try (unfold WIDTH, HEIGHT; lia). cbn [bind].
  destruct (textured_ok c7 (tex_pluto t) 84 16256 4096 Hplu) as (c8 & ->);
    try (unfold WIDTH, HEIGHT; lia). cbn [bind].
  destruct (paint_moons_ok (List.concat (map snd mp)) c8) as (c9 & ->). cbn [bind].
  rewrite BeltProps.belt_bounds_eval. cbn [bind].
  exists c9. reflexivity.
Qed.

(** X20. Whatever the five images hold and whatever the generator draws, the
    script never reaches the call that saves the image: it raises the
    [NameError] on [y] in the filler loop, or that loop is still running
    when the budget of iterations is spent. *)
Theorem script_never_saves (t : textures) (rng : nat -> Z) (fuel : nat) :
  loaded (tex_mars t) -> loaded (tex_moon t) -> loaded (tex_mercury t) ->
  loaded (tex_venus t) -> loaded (tex_pluto t) ->
  (Z.to_nat 8000 <= fuel)%nat ->
  render t rng fuel = Raise (NameError "y") \/ render t rng fuel = Ok Exhausted.
Proof.
  intros Hmars Hmoon Hmerc Hven Hplu Hfuel.
  destruct (before_belt_ok t Hmars Hmoon Hmerc Hven Hplu rng fuel) as (c & ->).
  assert (Hband : 5531 <= 7231) by lia.
  unfold populate.
  destruct (place_dwarfs_ok rng 5531 7231 Hband fuel dwarf_defs Hfuel
              (incl_refl _) (start c)) as (st1 & l & -> & (Ha & He & Hl & Hn) & Hl').
  cbn [bind].
  assert (Hne : l <> []) by (apply Hl'; [reflexivity | discriminate]).
  destruct (BeltMore.filler_loop_outcome rng 5531 7231 Hband fuel st1) as [-> | ->].
  - rewrite He. cbn [start dwarf_ring_extents app].
    destruct l; [contradiction Hne; reflexivity | discriminate].
  - rewrite Ha. cbn [start asteroids app]. cbn [dwarf_defs List.length] in Hn. lia.
  - left. reflexivity.
  - right. reflexivity.
Qed.

Definition flat (v : R) : texture :=
  {| tex_h := 1; tex_w := 1; tex_at := fun _ _ => v |}.

Definition flat_textures : textures :=
  {| tex_mars := flat 1; tex_moon := flat 1; tex_mercury := flat 1;
     tex_venus := flat 1; tex_pluto := flat 1 |}.

Lemma script_never_saves_witness :
  render flat_textures BeltProps.rng1 (Z.to_nat 8000) = Raise (NameError "y") \/
  render flat_textures BeltProps.rng1 (Z.to_nat 8000) = Ok Exhausted.
Proof.
  apply (script_never_saves flat_textures BeltProps.rng1 (Z.to_nat 8000));
    first [split; simpl; lia | lia].
Defined.

End Script.

(** ** The layout on the canvas *)

(** The columns a planet takes with its rings: from the centre minus the
    outer radius of its outermost ring to the centre plus it. *)
Definition reach (rings : list ring) (cx : dict Z) (p : string) : result (Z * Z) :=
  x <- getitem cx p ;;
  let B := outer_radius_of rings p in
  Ok (x - B, x + B).

(** Intervals that follow one another with a gap. *)
Fixpoint left_to_right (spans : list (Z * Z)) : Prop :=
  match spans with
  | a :: (b :: _) as rest => snd a < fst b /\ left_to_right rest
  | _ => True
  end.

(** A moon with its ring stays in the columns of its planet and on the
    rows of the canvas. *)
Definition moon_in_column (rings : list ring) (m : moon_place) : Prop :=
  let e := mp_mr m + MOON_RING_OFF + MOON_RING_THICK in
  e <= outer_radius_of rings (mp_planet m) /\
  0 <= mp_my m - e /\ mp_my m + e <= HEIGHT - 1.

(** X21. The nine ring systems follow one another from left to right without
    touching, in the order Mercury, Venus, Earth, Mars, Jupiter, Saturn,
    Uranus, Neptune, Pluto, after the two manual moves; every planet disk
    lies inside the canvas; every moon, with its ring, stays in the columns
    of its planet and on the rows of the canvas; the belt band, widened by
    the largest footprint of an asteroid (40), lies between the ring systems
    of Mars and Jupiter; and the ring system of Pluto passes the right edge
    of the canvas, where it is clipped. *)
Theorem layout_keeps_bodies_apart :
  exists rings cx bodies mp spans,
    rings_drawn = Ok rings /\ centre_x = Ok cx /\
    planet_bodies = Ok bodies /\ moon_places = Ok mp /\
    mapM (reach rings cx)
      ["Mercury"; "Venus"; "Earth"; "Mars"; "Jupiter"; "Saturn"; "Uranus";
       "Neptune"; "Pluto"] = Ok spans /\
    left_to_right spans /\
    Forall (fun b => 0 <= body_cx b - body_r b /\ body_cx b + body_r b <= WIDTH - 1 /\
                     0 <= body_cy b - body_r b /\ body_cy b + body_r b <= HEIGHT - 1)
           bodies /\
    Forall (moon_in_column rings) (List.concat (map snd mp)) /\
    (exists mars jupiter belt_left belt_right,
       reach rings cx "Mars" = Ok mars /\ reach rings cx "Jupiter" = Ok jupiter /\
       belt_bounds = Ok (belt_left, belt_right) /\
       snd mars < belt_left - 40 /\ belt_right + 40 < fst jupiter) /\
    (exists pluto, reach rings cx "Pluto" = Ok pluto /\
       fst pluto <= WIDTH - 1 < snd pluto).
Proof.
  eexists. eexists. eexists. eexists. eexists.
  split; [vm_compute; reflexivity|].
  split; [vm_compute; reflexivity|].
  split; [vm_compute; reflexivity|].
  split; [vm_compute; reflexivity|].
  split; [vm_compute; reflexivity|].
  split; [cbn [left_to_right fst snd]; repeat split|].
  split; [forall_list ltac:(cbn; repeat split; discriminate)|].
  split.
  { cbn [map snd List.concat app].
    forall_list ltac:(unfold moon_in_column; vm_compute; repeat split; discriminate). }
  split.
  - eexists. eexists. eexists. eexists.
    split; [vm_compute; reflexivity|].
    split; [vm_compute; reflexivity|].
    split; [vm_compute; reflexivity|].
    split; reflexivity.
  - eexists. split; [vm_compute; reflexivity|].
    split; [cbn; discriminate | reflexivity].
Qed.

(** ** A texture on its planet *)

Module TexturePass.
Import Projector ProjectorFacts Script.



End TexturePass.
